(** * The dusa web worker: slice scheduler and lifecycle state machine

    A shallow embedding of [src/worker.ts].  The worker owns a handful of
    module-level variables ([program], [queuedFacts], [queuedError], [stats],
    [tree], [path], [liveLoopHandle]), runs the search engine in bounded
    slices ([cycle]) that reschedule themselves with [setTimeout]
    ([liveLoop]), and answers the commands of the application ([onmessage]).

    The search engine ([./datalog/engine]) and the host (timers, the clock,
    the random number generator, the message channel, the console) are not
    part of the worker: the engine is an interface ([Engine]) and the host is
    explicit state in [World] plus two oracles ([Host]).

    JavaScript numbers are modelled exactly: counters as [N], clock readings
    and the random draw as rationals [Q].  Rounding of IEEE doubles is not
    modelled. *)

From Stdlib Require Import String ZArith NArith QArith Qround Lqa.
From Stdlib Require Import Bool Lia Arith List.
Import ListNotations.

Set Implicit Arguments.
Close Scope Q_scope.

(** ** Data *)

(** [WorkerStats]: the counters, mutated in place by the engine. *)
Record WorkerStats : Type := mkStats { cycles : N; deadEnds : N }.

Definition zeroStats : WorkerStats := {| cycles := 0; deadEnds := 0 |}.

(** [WorkerToApp]: what the worker posts.  [postMessage] copies its argument,
    so each message holds the value of [stats] at the time of posting. *)
Inductive WorkerToApp : Type :=
| MsgHello (st : WorkerStats)
| MsgSaturated (st : WorkerStats) (facts : list string) (last : bool)
| MsgPaused (st : WorkerStats)
| MsgRunning (st : WorkerStats)
| MsgDone (st : WorkerStats)
| MsgError (st : WorkerStats) (message : string)
| MsgReset (st : WorkerStats).

(** The five lifecycle states, the string literals of [resume]'s argument. *)
Inductive State : Type := Error | Paused | Done | Saturated | Running.

(** A call into the engine either returns or throws; [Throws e] carries the
    rendering [`${e}`] of the thrown value, which is all the worker keeps. *)
Inductive Completion (A : Type) : Type :=
| Returns (a : A)
| Throws (e : string).
Arguments Throws {A} e.

(** The opaque types of the engine. *)
Class EngineTypes : Type := {
  Data : Type;
  Program : Type;
  CompiledProgram : Type;
  Database : Type;
  ChoiceTreeNode : Type;
  ChoiceTree : Type
}.

Section Types.
Context {T : EngineTypes}.

(** [{ type: 'Fact', name, args, value }] *)
Record Fact : Type := mkFact { name : string; args : list Data; value : Data }.

(** [[ChoiceTreeNode, Data | 'defer'][]] *)
Inductive Choice : Type := choose (d : Data) | defer.
Definition Path : Type := list (ChoiceTreeNode * Choice).

(** [result.solution]: only its [facts] are read, through [Object.entries];
    the list is that sequence of entries, in enumeration order. *)
Record Solution : Type := mkSolution {
  facts : list (string * list (list Data * Data))
}.

(** What [stepTreeRandomDFS] returns: [tree] may be null, [solution] may be
    absent. *)
Record StepResult : Type := mkStepResult {
  result_tree : option ChoiceTree;
  result_path : Path;
  result_solution : option Solution
}.

(** [AppToWorker]: the commands. *)
Inductive AppToWorker : Type :=
| Status
| Stop
| Load (cp : CompiledProgram)
| Start
| Reset.

(** The worker's module-level variables, followed by the part of the host
    the worker acts on: the pending timers and the next timer id
    ([setTimeout] / [clearTimeout]), the messages posted so far, the console,
    and how many times [Math.random], [performance.now] and the engine's step
    have been called (each call consumes one value of its oracle). *)
Record World : Type := mkWorld {
  program : option Program;
  queuedFacts : option (list Fact);
  queuedError : option string;
  stats : WorkerStats;
  tree : option ChoiceTree;
  path : Path;
  liveLoopHandle : option nat;
  timers : list nat;
  nextTimer : nat;
  outbox : list WorkerToApp;
  console : list string;
  randomCalls : nat;
  nowCalls : nat;
  stepCalls : nat
}.

Definition set_program v (w : World) : World :=
  mkWorld v (queuedFacts w) (queuedError w) (stats w) (tree w) (path w)
    (liveLoopHandle w) (timers w) (nextTimer w) (outbox w) (console w)
    (randomCalls w) (nowCalls w) (stepCalls w).
Definition set_queuedFacts v (w : World) : World :=
  mkWorld (program w) v (queuedError w) (stats w) (tree w) (path w)
    (liveLoopHandle w) (timers w) (nextTimer w) (outbox w) (console w)
    (randomCalls w) (nowCalls w) (stepCalls w).
Definition set_queuedError v (w : World) : World :=
  mkWorld (program w) (queuedFacts w) v (stats w) (tree w) (path w)
    (liveLoopHandle w) (timers w) (nextTimer w) (outbox w) (console w)
    (randomCalls w) (nowCalls w) (stepCalls w).
Definition set_stats v (w : World) : World :=
  mkWorld (program w) (queuedFacts w) (queuedError w) v (tree w) (path w)
    (liveLoopHandle w) (timers w) (nextTimer w) (outbox w) (console w)
    (randomCalls w) (nowCalls w) (stepCalls w).
Definition set_tree v (w : World) : World :=
  mkWorld (program w) (queuedFacts w) (queuedError w) (stats w) v (path w)
    (liveLoopHandle w) (timers w) (nextTimer w) (outbox w) (console w)
    (randomCalls w) (nowCalls w) (stepCalls w).
Definition set_path v (w : World) : World :=
  mkWorld (program w) (queuedFacts w) (queuedError w) (stats w) (tree w) v
    (liveLoopHandle w) (timers w) (nextTimer w) (outbox w) (console w)
    (randomCalls w) (nowCalls w) (stepCalls w).
Definition set_liveLoopHandle v (w : World) : World :=
  mkWorld (program w) (queuedFacts w) (queuedError w) (stats w) (tree w)
    (path w) v (timers w) (nextTimer w) (outbox w) (console w)
    (randomCalls w) (nowCalls w) (stepCalls w).
Definition set_timers v (w : World) : World :=
  mkWorld (program w) (queuedFacts w) (queuedError w) (stats w) (tree w)
    (path w) (liveLoopHandle w) v (nextTimer w) (outbox w) (console w)
    (randomCalls w) (nowCalls w) (stepCalls w).
Definition set_nextTimer v (w : World) : World :=
  mkWorld (program w) (queuedFacts w) (queuedError w) (stats w) (tree w)
    (path w) (liveLoopHandle w) (timers w) v (outbox w) (console w)
    (randomCalls w) (nowCalls w) (stepCalls w).
Definition set_outbox v (w : World) : World :=
  mkWorld (program w) (queuedFacts w) (queuedError w) (stats w) (tree w)
    (path w) (liveLoopHandle w) (timers w) (nextTimer w) v (console w)
    (randomCalls w) (nowCalls w) (stepCalls w).
Definition set_console v (w : World) : World :=
  mkWorld (program w) (queuedFacts w) (queuedError w) (stats w) (tree w)
    (path w) (liveLoopHandle w) (timers w) (nextTimer w) (outbox w) v
    (randomCalls w) (nowCalls w) (stepCalls w).
Definition set_randomCalls v (w : World) : World :=
  mkWorld (program w) (queuedFacts w) (queuedError w) (stats w) (tree w)
    (path w) (liveLoopHandle w) (timers w) (nextTimer w) (outbox w)
    (console w) v (nowCalls w) (stepCalls w).
Definition set_nowCalls v (w : World) : World :=
  mkWorld (program w) (queuedFacts w) (queuedError w) (stats w) (tree w)
    (path w) (liveLoopHandle w) (timers w) (nextTimer w) (outbox w)
    (console w) (randomCalls w) v (stepCalls w).
Definition set_stepCalls v (w : World) : World :=
  mkWorld (program w) (queuedFacts w) (queuedError w) (stats w) (tree w)
    (path w) (liveLoopHandle w) (timers w) (nextTimer w) (outbox w)
    (console w) (randomCalls w) (nowCalls w) v.

End Types.

(** ** The engine and the host *)

(** What the worker imports from [./datalog/engine].  [stepTreeRandomDFS] is
    randomised and mutates [stats] in place: it takes the number of the call
    (its source of randomness) and returns the counters as it leaves them,
    whether it returns or throws.  The worker passes [program!]; the
    assertion is erased at run time, so the engine receives whatever
    [program] holds. *)
Class Engine {T : EngineTypes} : Type := {
  compiled_program : CompiledProgram -> Program;
  leaf : Database -> ChoiceTree;
  makeInitialDb : CompiledProgram -> Completion Database;
  factToString : Fact -> string;
  pathToString : ChoiceTree -> Path -> Completion string;
  stepTreeRandomDFS :
    nat -> option Program -> ChoiceTree -> Path -> WorkerStats ->
    WorkerStats * Completion StepResult
}.

(** The host's oracles: the [i]-th call of [Math.random()] and of
    [performance.now()]. *)
Record Host : Type := mkHost {
  random : nat -> Q;
  now : nat -> Q
}.

(** ** The worker *)

Section Worker.
Context {T : EngineTypes} {E : Engine} (H : Host).
Open Scope Q_scope.

Definition CYCLE_LIMIT : Q := 10000.
Definition TIME_LIMIT : Q := 500.

(** A counter read as a number. *)
Definition num (n : N) : Q := inject_Z (Z.of_N n).

(** [x < y] on numbers. *)
Definition ltb (x y : Q) : bool := negb (Qle_bool y x).

(** [post(message)] *)
Definition post (message : WorkerToApp) (w : World) : World :=
  set_outbox (outbox w ++ [message]) w.

(** [setTimeout(liveLoop)]: [liveLoop] is the only callback ever scheduled,
    so a pending timer is just its id. *)
Definition setTimeout (w : World) : nat * World :=
  (nextTimer w,
   set_nextTimer (S (nextTimer w)) (set_timers (timers w ++ [nextTimer w]) w)).

(** [clearTimeout(h)] *)
Definition clearTimeout (h : nat) (w : World) : World :=
  set_timers (remove Nat.eq_dec h (timers w)) w.

(** [Math.random()] *)
Definition Math_random (w : World) : Q * World :=
  (random H (randomCalls w), set_randomCalls (S (randomCalls w)) w).

(** [performance.now()] *)
Definition performance_now (w : World) : Q * World :=
  (now H (nowCalls w), set_nowCalls (S (nowCalls w)) w).

(** [console.log(s)] *)
Definition console_log (s : string) (w : World) : World :=
  set_console (console w ++ [s]) w.

(** [([] as Fact[]).concat(...Object.entries(facts).map(...))] *)
Definition flatten (sol : Solution) : list Fact :=
  concat
    (map (fun entry : string * list (list Data * Data) =>
            let (name, argses) := entry in
            map (fun av : list Data * Data =>
                   let (args, value) := av in mkFact name args value)
                argses)
         (facts sol)).

(** The four [return] statements of [cycle]: line 55 ([tree === null]),
    line 72 (a solution), line 77 (the [catch]) and line 80 (the [while]
    condition failed). *)
Inductive CycleExit : Type :=
| ExitExhausted
| ExitSolution
| ExitError
| ExitLoopEnd.

(** The value each of them returns. *)
Definition returns (x : CycleExit) : bool :=
  match x with
  | ExitLoopEnd => true
  | ExitExhausted | ExitSolution | ExitError => false
  end.

(** The [while] condition
    [stats.cycles < limit && start + TIME_LIMIT > performance.now()];
    [&&] reads the clock only when its left operand holds. *)
Definition loop_cond (limit start : Q) (w : World) : bool * World :=
  if ltb (num (cycles (stats w))) limit then
    let (t, w1) := performance_now w in
    (ltb t (start + TIME_LIMIT), w1)
  else (false, w).

(** One pass through the body of the [while], inside the [try]. *)
Inductive Iteration : Type :=
| Continue (w : World)
| Return (x : CycleExit) (w : World).

Definition loop_body (w : World) : Iteration :=
  match tree w with
  | None => Return ExitExhausted w
  | Some tr =>
      match pathToString tr (path w) with
      | Throws e => Return ExitError (set_queuedError (Some e) w)
      | Returns s =>
          let w1 := console_log s w in
          let (st', c) :=
            stepTreeRandomDFS (stepCalls w1) (program w1) tr (path w1)
              (stats w1) in
          let w2 := set_stepCalls (S (stepCalls w1)) (set_stats st' w1) in
          match c with
          | Throws e => Return ExitError (set_queuedError (Some e) w2)
          | Returns result =>
              let w3 := set_tree (result_tree result) w2 in
              let w4 :=
                set_path
                  (match result_tree result with
                   | None => path w3
                   | Some _ => result_path result
                   end) w3 in
              match result_solution result with
              | Some sol =>
                  Return ExitSolution
                    (set_queuedFacts (Some (flatten sol)) w4)
              | None => Continue w4
              end
          end
      end
  end.

(** The [while] loop.  Nothing in the worker bounds the number of passes by
    itself (that takes an engine that counts its steps, or a clock that
    advances), so the loop runs on fuel; [None] is out of fuel. *)
Fixpoint cycle_loop (fuel : nat) (limit start : Q) (w : World)
  : option (CycleExit * World) :=
  match fuel with
  | O => None
  | S fuel' =>
      let (c, w1) := loop_cond limit start w in
      if c then
        match loop_body w1 with
        | Continue w2 => cycle_loop fuel' limit start w2
        | Return x w2 => Some (x, w2)
        end
      else Some (ExitLoopEnd, w1)
  end.

(** [limit] as [cycle] computes it from the counters and its random draw. *)
Definition cycle_limit (st : WorkerStats) (r : Q) : Q :=
  num (cycles st) + CYCLE_LIMIT + r * CYCLE_LIMIT.

(** [cycle], with the [return] it leaves by. *)
Definition cycle_run (fuel : nat) (w : World) : option (CycleExit * World) :=
  let (r, w1) := Math_random w in
  let limit := cycle_limit (stats w1) r in
  let (start, w2) := performance_now w1 in
  cycle_loop fuel limit start w2.

(** [cycle(): boolean] *)
Definition cycle (fuel : nat) (w : World) : option (bool * World) :=
  match cycle_run fuel w with
  | Some (x, w') => Some (returns x, w')
  | None => None
  end.

(** [liveLoop] *)
Definition liveLoop (fuel : nat) (w : World) : option World :=
  match cycle fuel w with
  | Some (true, w1) =>
      let (h, w2) := setTimeout w1 in
      Some (set_liveLoopHandle (Some h) w2)
  | Some (false, w1) => Some (set_liveLoopHandle None w1)
  | None => None
  end.

(** [resume(state)].  [queuedError!] and [queuedFacts!] are non-null
    assertions; [None] is the case where one of them is violated. *)
Definition resume (state : State) (w : World) : option World :=
  match state with
  | Error =>
      match queuedError w with
      | Some message => Some (post (MsgError (stats w) message) w)
      | None => None
      end
  | Paused => Some (post (MsgPaused (stats w)) w)
  | Done => Some (post (MsgDone (stats w)) w)
  | Running =>
      let (h, w1) := setTimeout w in
      let w2 := set_liveLoopHandle (Some h) w1 in
      Some (post (MsgRunning (stats w2)) w2)
  | Saturated =>
      match queuedFacts w with
      | Some fs =>
          let msg :=
            MsgSaturated (stats w) (map factToString fs)
              (match tree w with None => true | Some _ => false end) in
          Some (post msg (set_queuedFacts None w))
      | None => None
      end
  end.

(** "What state are we actually in?" *)
Definition inferState (w : World) : State :=
  match liveLoopHandle w with
  | Some _ => Running
  | None =>
      match queuedError w with
      | Some _ => Error
      | None =>
          match queuedFacts w with
          | Some _ => Saturated
          | None =>
              match tree w with
              | None => Done
              | Some _ => Paused
              end
          end
      end
  end.

(** "Pause" *)
Definition pause (w : World) : World :=
  match liveLoopHandle w with
  | Some h => set_liveLoopHandle None (clearTimeout h w)
  | None => w
  end.

Definition State_eqb (a b : State) : bool :=
  match a, b with
  | Error, Error | Paused, Paused | Done, Done
  | Saturated, Saturated | Running, Running => true
  | _, _ => false
  end.

(** The [switch] of [onmessage], given the state inferred beforehand. *)
Definition dispatch (state : State) (cmd : AppToWorker) (w : World)
  : option World :=
  match cmd with
  | Load cp =>
      let w1 := set_stats zeroStats w in
      let w2 := set_path [] w1 in
      let w3 := set_program (Some (compiled_program cp)) w2 in
      let w4 := set_queuedFacts None w3 in
      let w5 := set_queuedError None w4 in
      match makeInitialDb cp with
      | Returns db => resume Paused (set_tree (Some (leaf db)) w5)
      | Throws e => resume Error (set_queuedError (Some e) w5)
      end
  | Start =>
      if State_eqb state Paused then resume Running w else resume state w
  | Stop =>
      if State_eqb state Running then resume Paused w else resume state w
  | Reset =>
      let w1 := set_stats zeroStats w in
      let w2 := set_tree None w1 in
      let w3 := set_path [] w2 in
      let w4 := set_program None w3 in
      let w5 := set_queuedFacts None w4 in
      let w6 := set_queuedError None w5 in
      Some (post (MsgReset (stats w6)) w6)
  | Status => resume state w
  end.

(** [onmessage] *)
Definition onmessage (cmd : AppToWorker) (w : World) : option World :=
  let state := inferState w in
  dispatch state cmd (pause w).

(** The module's initial values, and the world once the module has run
    ([post({ stats, type: 'hello' })]). *)
Definition blank : World :=
  mkWorld None None None zeroStats None [] None [] 0%nat [] [] 0%nat 0%nat
    0%nat.

Definition init : World := post (MsgHello (stats blank)) blank.

(** ** The event loop

    Between two events the worker is idle.  An event is a command from the
    application or a pending timer that fires; a fired timer leaves the
    host's list before [liveLoop] runs. *)
Inductive Event : Type :=
| Message (cmd : AppToWorker)
| Timeout (h : nat).

Definition fire (h : nat) (w : World) : World :=
  set_timers (remove Nat.eq_dec h (timers w)) w.

Inductive step : World -> Event -> World -> Prop :=
| step_message w cmd w' :
    onmessage cmd w = Some w' -> step w (Message cmd) w'
| step_timeout w h fuel w' :
    In h (timers w) -> liveLoop fuel (fire h w) = Some w' ->
    step w (Timeout h) w'.

Inductive reachable : World -> Prop :=
| reachable_init : reachable init
| reachable_step w ev w' : reachable w -> step w ev w' -> reachable w'.

(** The last message posted. *)
Definition lastPosted (w : World) : option WorkerToApp :=
  last (map Some (outbox w)) None.

(** PendingResult is none. *)
Definition nothingPending (w : World) : Prop :=
  queuedFacts w = None /\ queuedError w = None.

(** ** Vocabulary for the statements *)

(** Zero or more full passes of the [while] loop lead from [w] to [wl]:
    each one tests the condition, finds it true, and runs the body to its
    end. *)
Inductive passes (limit start : Q) : World -> World -> Prop :=
| passes_none w : passes limit start w w
| passes_more w w1 w2 wl :
    loop_cond limit start w = (true, w1) ->
    loop_body w1 = Continue w2 ->
    passes limit start w2 wl ->
    passes limit start w wl.

(** The step the body makes from [wl] on the tree [tr]. *)
Definition step_from (wl : World) (tr : ChoiceTree)
  : WorkerStats * Completion StepResult :=
  stepTreeRandomDFS (stepCalls wl) (program wl) tr (path wl) (stats wl).

(** The [while] condition holds at [wl]: below the quota, and the clock
    read for the test is before the deadline. *)
Definition in_budget (limit start : Q) (wl : World) : Prop :=
  num (cycles (stats wl)) < limit /\
  now H (nowCalls wl) < start + TIME_LIMIT.

(** How [cycle] leaves by each of its [return]s, from the world [wl] in
    which the condition is tested for the last time to the world [w'] it
    returns in. *)
Definition exit_spec (limit start : Q) (wl w' : World) (x : CycleExit)
  : Prop :=
  match x with
  | ExitLoopEnd =>
      (limit <= num (cycles (stats wl)) /\ w' = wl) \/
      (num (cycles (stats wl)) < limit /\
       start + TIME_LIMIT <= now H (nowCalls wl) /\
       w' = set_nowCalls (S (nowCalls wl)) wl)
  | ExitExhausted =>
      in_budget limit start wl /\ tree wl = None /\
      w' = set_nowCalls (S (nowCalls wl)) wl
  | ExitSolution =>
      in_budget limit start wl /\
      exists tr s st' res sol,
        tree wl = Some tr /\
        pathToString tr (path wl) = Returns s /\
        step_from wl tr = (st', Returns res) /\
        result_solution res = Some sol /\
        queuedFacts w' = Some (flatten sol) /\
        queuedError w' = queuedError wl /\
        tree w' = result_tree res /\
        stats w' = st'
  | ExitError =>
      in_budget limit start wl /\
      exists tr e,
        tree wl = Some tr /\
        (pathToString tr (path wl) = Throws e \/
         exists s st',
           pathToString tr (path wl) = Returns s /\
           step_from wl tr = (st', Throws e)) /\
        queuedError w' = Some e /\
        queuedFacts w' = queuedFacts wl /\
        tree w' = tree wl
  end.

(** What a slice never touches. *)
Definition untouched (w w' : World) : Prop :=
  liveLoopHandle w' = liveLoopHandle w /\
  timers w' = timers w /\
  nextTimer w' = nextTimer w /\
  outbox w' = outbox w /\
  program w' = program w.

(** The same pending result. *)
Definition samePending (w w' : World) : Prop :=
  queuedFacts w' = queuedFacts w /\ queuedError w' = queuedError w.

(** The timer the worker holds is the one pending timer, and it is armed
    only with nothing pending. *)
Definition scheduled (w : World) : Prop :=
  timers w =
    match liveLoopHandle w with Some h => [h] | None => [] end /\
  (forall h, liveLoopHandle w = Some h -> (h < nextTimer w)%nat) /\
  (liveLoopHandle w <> None -> nothingPending w).

(** The world in which a slice enters its loop (one random draw and one
    clock reading later), the quota it computed and the time it recorded. *)
Definition slice_entry (w : World) : World :=
  set_nowCalls (S (nowCalls w)) (set_randomCalls (S (randomCalls w)) w).

Definition slice_limit (w : World) : Q :=
  cycle_limit (stats w) (random H (randomCalls w)).

Definition slice_start (w : World) : Q := now H (nowCalls w).

(** Running a list of events; a timer event must name a pending timer. *)
Definition runEvent (fuel : nat) (ev : Event) (w : World) : option World :=
  match ev with
  | Message cmd => onmessage cmd w
  | Timeout h =>
      if in_dec Nat.eq_dec h (timers w) then liveLoop fuel (fire h w)
      else None
  end.

Fixpoint runEvents (fuel : nat) (evs : list Event) (w : World)
  : option World :=
  match evs with
  | [] => Some w
  | ev :: evs' =>
      match runEvent fuel ev w with
      | Some w' => runEvents fuel evs' w'
      | None => None
      end
  end.

(** The counters a message carries, and whether it is the greeting. *)
Definition messageStats (m : WorkerToApp) : WorkerStats :=
  match m with
  | MsgHello st | MsgSaturated st _ _ | MsgPaused st | MsgRunning st
  | MsgDone st | MsgError st _ | MsgReset st => st
  end.

Definition isHello (m : WorkerToApp) : bool :=
  match m with
  | MsgHello _ => true
  | _ => false
  end.

(** The commands among a list of events. *)
Definition countMessages (evs : list Event) : nat :=
  length
    (filter
       (fun ev => match ev with Message _ => true | Timeout _ => false end)
       evs).

(** The state inferred once [liveLoop] has finished, by the [return] its
    slice left by. *)
Definition stateAfter (x : CycleExit) : State :=
  match x with
  | ExitLoopEnd => Running
  | ExitExhausted => Done
  | ExitSolution => Saturated
  | ExitError => Error
  end.

(** The most passes a loop with quota [limit] can still make from [w], when
    every step counts itself. *)
Definition passesLeft (limit : Q) (w : World) : Z :=
  Z.max 0 (Qceiling limit - Z.of_N (cycles (stats w))).


(** Modelled from the spec: the engine ([./datalog/engine]) is not part of
    the worker's source; its contract (section 4.1) has every call of the
    step increment the step counter.  This is what makes a slice end by its
    quota whatever the clock does. *)
Definition counts_steps : Prop :=
  forall k p tr pth st,
    (cycles st < cycles (fst (stepTreeRandomDFS k p tr pth st)))%N.

End Worker.

(** ** A small engine and two hosts, to run the worker on

    Programs, databases and trees are numbers; the tree tells what the next
    step does: [0] is exhausted by its first step, [1] yields a solution and
    is exhausted, [2] makes the step throw, [3] yields a solution and goes
    on, anything larger steps down by three.  Program [13] cannot be
    loaded. *)

#[global] Instance sampleTypes : EngineTypes := {|
  Data := nat;
  Program := nat;
  CompiledProgram := nat;
  Database := nat;
  ChoiceTreeNode := nat;
  ChoiceTree := nat
|}.

Definition sampleSolution : @Solution sampleTypes :=
  mkSolution
    [("edge"%string, [([1; 2], 0); ([2; 3], 0)]);
     ("colour"%string, [([1], 7)])].

Definition counted (st : WorkerStats) (dead : bool) : WorkerStats :=
  {| cycles := cycles st + 1;
     deadEnds := if dead then deadEnds st + 1 else deadEnds st |}.

Definition sampleStep (k : nat) (p : option nat) (tr : nat)
  (pth : @Path sampleTypes) (st : WorkerStats)
  : WorkerStats * Completion (@StepResult sampleTypes) :=
  match tr with
  | 0 => (counted st true, Returns (mkStepResult None pth None))
  | 1 =>
      (counted st false,
       Returns (mkStepResult None pth (Some sampleSolution)))
  | 2 => (counted st false, Throws "Error: step failed"%string)
  | 3 =>
      (counted st false,
       Returns
         (mkStepResult (Some 0) ((tr, defer) :: pth) (Some sampleSolution)))
  | S (S (S n)) =>
      (counted st false,
       Returns (mkStepResult (Some n) ((tr, choose k) :: pth) None))
  end.

#[global] Instance sampleEngine : Engine :=
  @Build_Engine sampleTypes
    (fun cp : nat => cp)
    (fun db : nat => db)
    (fun cp : nat =>
       if Nat.eqb cp 13 then Throws "Error: cannot load"%string
       else Returns cp)
    (fun f : Fact => name f)
    (fun (tr : nat) (pth : Path) => Returns "path"%string)
    sampleStep.

(** A clock that advances one unit per reading. *)
Definition steadyHost : Host :=
  {| random := fun _ => (1 # 2)%Q; now := fun i => inject_Z (Z.of_nat i) |}.


(** The world after a list of events, from the initial one. *)
Definition sampleAfter (H : Host) (evs : list (@Event sampleTypes))
  : @World sampleTypes :=
  match runEvents H 5 evs init with
  | Some w => w
  | None => init
  end.

(** Program [7] loaded and started: a timer is pending. *)
Definition sampleRunning : list (@Event sampleTypes) :=
  [Message (Load 7); Message Start].

(** Program [1] run to its solution. *)
Definition sampleSaturated : list (@Event sampleTypes) :=
  [Message (Load 1); Message Start; Timeout 0].

(** Program [2] run to its failing step. *)
Definition sampleFailed : list (@Event sampleTypes) :=
  [Message (Load 2); Message Start; Timeout 0].


(** Program [7] loaded: state [Paused]. *)
Definition sampleLoaded : list (@Event sampleTypes) := [Message (Load 7)].

(** Program [3] run to its first solution, with more of the tree left. *)
Definition sampleMore : list (@Event sampleTypes) :=
  [Message (Load 3); Message Start; Timeout 0].


(** * Properties *)

Section WorkerFacts.
Context {T : EngineTypes} {E : Engine} (H : Host).
Open Scope Q_scope.

(** ** Numbers *)

Lemma ltb_lt (x y : Q) : ltb x y = true <-> x < y.
Proof.
  unfold ltb. rewrite negb_true_iff. split.
  - intro Hb. apply Qnot_le_lt. intro Hle.
    apply Qle_bool_iff in Hle. congruence.
  - intro Hlt. destruct (Qle_bool y x) eqn:Hb; [|reflexivity].
    apply Qle_bool_iff in Hb. exfalso. exact (Qlt_not_le _ _ Hlt Hb).
Qed.

Lemma ltb_ge (x y : Q) : ltb x y = false <-> y <= x.
Proof.
  unfold ltb. rewrite negb_false_iff. apply Qle_bool_iff.
Qed.

(** ** The inferred state *)

Ltac flags w :=
  destruct (liveLoopHandle w), (queuedError w), (queuedFacts w), (tree w).

(** C1.  The state is a function of the four flags alone, read in the order
    [liveLoopHandle], [queuedError], [queuedFacts], [tree]: each of the five
    states is inferred exactly on its own combination of flags, so every
    world is in exactly one of them; [onmessage] infers it from the flags it
    is entered with, before it touches them; and before any program is
    loaded the state is [Done]. *)
Theorem inferState_priority (w : World) :
  (inferState w = Running <-> liveLoopHandle w <> None) /\
  (inferState w = Error <->
     liveLoopHandle w = None /\ queuedError w <> None) /\
  (inferState w = Saturated <->
     liveLoopHandle w = None /\ queuedError w = None /\
     queuedFacts w <> None) /\
  (inferState w = Done <->
     liveLoopHandle w = None /\ queuedError w = None /\
     queuedFacts w = None /\ tree w = None) /\
  (inferState w = Paused <->
     liveLoopHandle w = None /\ queuedError w = None /\
     queuedFacts w = None /\ tree w <> None) /\
  (exists! s, inferState w = s) /\
  (forall cmd, onmessage cmd w = dispatch (inferState w) cmd (pause w)) /\
  inferState (@init T) = Done.
Proof.
  unfold inferState.
  repeat split; try (flags w; intuition congruence).
  exists (inferState w). unfold inferState. split; [reflexivity|].
  intros s' Hs'. exact Hs'.
Qed.

(** ** One slice *)

Lemma loop_cond_true limit start (w w1 : World) :
  loop_cond H limit start w = (true, w1) ->
  in_budget H limit start w /\ w1 = set_nowCalls (S (nowCalls w)) w.
Proof.
  unfold loop_cond, performance_now, in_budget.
  destruct (ltb (num (cycles (stats w))) limit) eqn:Hq; [|discriminate].
  intros Heq. injection Heq as Ht Hw. apply ltb_lt in Hq, Ht.
  auto.
Qed.

Lemma loop_cond_false limit start (w w1 : World) :
  loop_cond H limit start w = (false, w1) ->
  exit_spec H limit start w w1 ExitLoopEnd.
Proof.
  unfold loop_cond, performance_now, exit_spec.
  destruct (ltb (num (cycles (stats w))) limit) eqn:Hq.
  - intros Heq. injection Heq as Ht Hw. right.
    apply ltb_lt in Hq. apply ltb_ge in Ht. auto.
  - intros Heq. injection Heq as Hw. left. apply ltb_ge in Hq. auto.
Qed.

Ltac body_cases w :=
  unfold loop_body, step_from;
  let tr := fresh "tr" in
  let s := fresh "s" in
  let e := fresh "e" in
  let st' := fresh "st'" in
  let res := fresh "res" in
  let sol := fresh "sol" in
  let Htree := fresh "Htree" in
  let Hpath := fresh "Hpath" in
  let Hstep := fresh "Hstep" in
  let Hsol := fresh "Hsol" in
  destruct (tree w) as [tr|] eqn:Htree;
  [ destruct (pathToString tr (path w)) as [s|e] eqn:Hpath;
    [ cbn;
      destruct (stepTreeRandomDFS (stepCalls w) (program w) tr (path w)
                  (stats w)) as [st' [res|e]] eqn:Hstep;
      [ destruct (result_solution res) as [sol|] eqn:Hsol | ]
    | ]
  | ].

Lemma loop_body_continue (w w2 : World) :
  loop_body w = Continue w2 ->
  untouched w w2 /\ samePending w w2 /\ tree w <> None /\
  stepCalls w2 = S (stepCalls w) /\ nowCalls w2 = nowCalls w /\
  exists tr, tree w = Some tr /\ stats w2 = fst (step_from w tr).
Proof.
  body_cases w; intros Heq; try discriminate.
  injection Heq as <-. unfold untouched, samePending. cbn.
  repeat split; try congruence.
  exists tr. rewrite Hstep. auto.
Qed.

Lemma loop_body_return (w w' : World) (x : CycleExit) :
  loop_body w = Return x w' ->
  untouched w w' /\ nowCalls w' = nowCalls w /\
  match x with
  | ExitLoopEnd => False
  | ExitExhausted => tree w = None /\ w' = w
  | ExitSolution =>
      exists tr s st' res sol,
        tree w = Some tr /\
        pathToString tr (path w) = Returns s /\
        step_from w tr = (st', Returns res) /\
        result_solution res = Some sol /\
        queuedFacts w' = Some (flatten sol) /\
        queuedError w' = queuedError w /\
        tree w' = result_tree res /\
        stats w' = st'
  | ExitError =>
      exists tr e,
        tree w = Some tr /\
        (pathToString tr (path w) = Throws e \/
         exists s st',
           pathToString tr (path w) = Returns s /\
           step_from w tr = (st', Throws e)) /\
        queuedError w' = Some e /\
        queuedFacts w' = queuedFacts w /\
        tree w' = tree w
  end.
Proof.
  body_cases w; intros Heq; try discriminate;
    injection Heq as <- <-; unfold untouched, step_from; cbn;
    (split; [tauto|]); (split; [reflexivity|]).
  - exists tr, s, st', res, sol. rewrite Hstep. repeat split; auto.
  - exists tr, e. rewrite Hstep. repeat split; eauto.
  - exists tr, e. repeat split; eauto.
  - auto.
Qed.


Lemma untouched_refl (w : World) : untouched w w.
Proof. unfold untouched. tauto. Qed.

Lemma untouched_trans (w1 w2 w3 : World) :
  untouched w1 w2 -> untouched w2 w3 -> untouched w1 w3.
Proof. unfold untouched. intuition congruence. Qed.

Lemma samePending_refl (w : World) : samePending w w.
Proof. unfold samePending. tauto. Qed.

Lemma samePending_trans (w1 w2 w3 : World) :
  samePending w1 w2 -> samePending w2 w3 -> samePending w1 w3.
Proof. unfold samePending. intuition congruence. Qed.

(** Full passes keep what a slice never touches and the pending result,
    only ever add engine calls, and there is none from an exhausted tree. *)
Lemma passes_keep limit start (w wl : World) :
  passes H limit start w wl ->
  untouched w wl /\ samePending w wl /\
  (stepCalls w <= stepCalls wl)%nat /\
  (tree w = None -> wl = w).
Proof.
  induction 1 as [w|w w1 w2 wl Hc Hb Hp IH].
  - split; [apply untouched_refl|]. split; [apply samePending_refl|].
    split; [lia|reflexivity].
  - apply loop_cond_true in Hc as [_ ->].
    apply loop_body_continue in Hb as (Hu & Hs & Ht & Hk & _).
    destruct IH as (Hu' & Hs' & Hk' & _).
    cbn in *.
    split; [eapply untouched_trans; [|exact Hu']; exact Hu|].
    split; [eapply samePending_trans; [|exact Hs']; exact Hs|].
    split; [lia|]. intros Hnone. contradiction.
Qed.

(** The loop, when it ends, ends from some world [wl] reached by full
    passes, by the [return] described in [exit_spec]. *)
Lemma cycle_loop_spec fuel :
  forall limit start (w : World) x w',
    cycle_loop H fuel limit start w = Some (x, w') ->
    exists wl,
      passes H limit start w wl /\ exit_spec H limit start wl w' x /\
      untouched wl w'.
Proof.
  induction fuel as [|fuel IH]; simpl; intros limit start w x w' Hrun;
    [discriminate|].
  destruct (loop_cond H limit start w) as [c w1] eqn:Hc. destruct c.
  - destruct (loop_body w1) as [w2|x' w2] eqn:Hb.
    + apply IH in Hrun as (wl & Hp & He & Hu). exists wl.
      split; [eapply passes_more; eauto|auto].
    + injection Hrun as -> ->. exists w. split; [constructor|].
      apply loop_cond_true in Hc as [Hbud ->].
      apply loop_body_return in Hb as (Hu & Hn & Hx).
      split; [|exact Hu].
      destruct x; cbn in *.
      * destruct Hx as [Hnone ->]. auto.
      * split; [exact Hbud|exact Hx].
      * split; [exact Hbud|exact Hx].
      * contradiction.
  - injection Hrun as <- <-. exists w. split; [constructor|].
    split; [apply loop_cond_false; exact Hc|].
    unfold loop_cond, performance_now in Hc.
    destruct (ltb (num (cycles (stats w))) limit);
      injection Hc; intros; subst w1; unfold untouched; cbn; tauto.
Qed.



Lemma below_limit_ceiling (c : N) (limit : Q) :
  num c < limit -> (Z.of_N c < Qceiling limit)%Z.
Proof.
  intros Hlt. rewrite Zlt_Qlt.
  eapply Qlt_le_trans; [exact Hlt|apply Qle_ceiling].
Qed.


(** ** A slice as a whole *)

Lemma exit_keeps_pending limit start (wl w' : World) x :
  exit_spec H limit start wl w' x -> returns x = true -> samePending wl w'.
Proof.
  destruct x; cbn; try discriminate.
  intros [[_ ->]|(_ & _ & ->)] _; unfold samePending; cbn; tauto.
Qed.

Lemma cycle_run_keeps fuel (w : World) x w' :
  cycle_run H fuel w = Some (x, w') ->
  untouched w w' /\ (returns x = true -> samePending w w').
Proof.
  unfold cycle_run, Math_random, performance_now. intros Hrun.
  apply cycle_loop_spec in Hrun as (wl & Hp & He & Hu).
  apply passes_keep in Hp as (Hu' & Hs' & _ & _).
  split.
  - eapply untouched_trans; [|exact Hu].
    unfold untouched in *. cbn in *. exact Hu'.
  - intros Hret. eapply samePending_trans;
      [|eapply exit_keeps_pending; eauto].
    unfold samePending in *. cbn in *. exact Hs'.
Qed.

Lemma cycle_inv fuel (w : World) b w' :
  cycle H fuel w = Some (b, w') ->
  exists x, cycle_run H fuel w = Some (x, w') /\ b = returns x.
Proof.
  unfold cycle. destruct (cycle_run H fuel w) as [[x w1]|]; [|discriminate].
  intros Heq. injection Heq as <- <-. eauto.
Qed.

(** ** The timer invariant *)

Lemma remove_only (h : nat) : remove Nat.eq_dec h [h] = [].
Proof. cbn. destruct (Nat.eq_dec h h); congruence. Qed.

Lemma liveLoop_scheduled fuel (w w' : World) :
  liveLoop H fuel w = Some w' ->
  timers w = [] -> nothingPending w -> scheduled w'.
Proof.
  unfold liveLoop. intros Hrun Htimers Hpend.
  destruct (cycle H fuel w) as [[b w1]|] eqn:Hc; [|discriminate].
  apply cycle_inv in Hc as (x & Hc & ->).
  apply cycle_run_keeps in Hc as [(_ & Ht & _) Hs].
  destruct (returns x).
  - injection Hrun as <-. unfold scheduled, nothingPending in *. cbn.
    rewrite Ht, Htimers. split; [reflexivity|].
    split; [intros h Hh; injection Hh as <-; lia|].
    intros _. destruct (Hs eq_refl) as [-> ->]. exact Hpend.
  - injection Hrun as <-. unfold scheduled. cbn.
    rewrite Ht, Htimers. split; [reflexivity|].
    split; [discriminate|]. intros Hne. congruence.
Qed.

Lemma pause_scheduled (w : World) :
  scheduled w ->
  timers (pause w) = [] /\ liveLoopHandle (pause w) = None /\
  nextTimer (pause w) = nextTimer w /\
  queuedFacts (pause w) = queuedFacts w /\
  queuedError (pause w) = queuedError w /\
  tree (pause w) = tree w.
Proof.
  unfold scheduled, pause, clearTimeout. intros (Ht & _ & _).
  destruct (liveLoopHandle w) as [h|] eqn:Hh; cbn.
  - rewrite Ht, remove_only. tauto.
  - rewrite Hh. tauto.
Qed.

Lemma resume_scheduled (state : State) (w w' : World) :
  timers w = [] -> liveLoopHandle w = None ->
  (state = Running -> nothingPending w) ->
  resume state w = Some w' -> scheduled w'.
Proof.
  intros Ht Hh Hrun. unfold resume, scheduled, nothingPending.
  destruct state.
  - destruct (queuedError w); [|discriminate].
    intros Heq; injection Heq as <-. cbn. rewrite Ht, Hh.
    split; [reflexivity|]. split; [discriminate|congruence].
  - intros Heq; injection Heq as <-. cbn. rewrite Ht, Hh.
    split; [reflexivity|]. split; [discriminate|congruence].
  - intros Heq; injection Heq as <-. cbn. rewrite Ht, Hh.
    split; [reflexivity|]. split; [discriminate|congruence].
  - destruct (queuedFacts w); [|discriminate].
    intros Heq; injection Heq as <-. cbn. rewrite Ht, Hh.
    split; [reflexivity|]. split; [discriminate|congruence].
  - intros Heq; injection Heq as <-. cbn. rewrite Ht.
    split; [reflexivity|].
    split; [intros h Heq; injection Heq as <-; lia|].
    intros _. exact (Hrun eq_refl).
Qed.

Lemma onmessage_scheduled (cmd : AppToWorker) (w w' : World) :
  scheduled w -> onmessage cmd w = Some w' -> scheduled w'.
Proof.
  intros Hs. pose proof (pause_scheduled Hs) as (Ht & Hh & Hn & Hf & He & Htr).
  assert (Hrunning : inferState w = Running -> nothingPending (pause w)).
  { intros Hst. unfold nothingPending. rewrite Hf, He.
    apply Hs. unfold inferState in Hst.
    destruct (liveLoopHandle w); [discriminate|].
    flags w; discriminate. }
  assert (Hpaused : inferState w = Paused -> nothingPending (pause w)).
  { intros Hst. unfold nothingPending. rewrite Hf, He.
    unfold inferState in Hst. flags w; try discriminate. tauto. }
  unfold onmessage, dispatch.
  destruct cmd.
  - apply resume_scheduled; auto.
  - destruct (State_eqb (inferState w) Running) eqn:Hst.
    + apply resume_scheduled; auto. discriminate.
    + apply resume_scheduled; auto.
  - destruct (makeInitialDb cp); apply resume_scheduled; auto; discriminate.
  - destruct (State_eqb (inferState w) Paused) eqn:Hst.
    + apply resume_scheduled; auto. intros _. apply Hpaused.
      destruct (inferState w); try discriminate; reflexivity.
    + apply resume_scheduled; auto.
  - intros Heq; injection Heq as <-. unfold scheduled. cbn.
    rewrite Ht, Hh. split; [reflexivity|]. split; [discriminate|congruence].
Qed.

Lemma init_scheduled : scheduled (@init T).
Proof.
  unfold scheduled, nothingPending. cbn.
  split; [reflexivity|]. split; [discriminate|congruence].
Qed.

Lemma reachable_scheduled (w : World) : reachable H w -> scheduled w.
Proof.
  induction 1 as [|w ev w' Hr IH Hstep]; [apply init_scheduled|].
  destruct Hstep as [w cmd w' Hmsg|w h fuel w' Hin Hrun].
  - eapply onmessage_scheduled; eauto.
  - destruct IH as (Ht & Hlt & Hp).
    destruct (liveLoopHandle w) as [h'|] eqn:Hh;
      rewrite Ht in Hin; cbn in Hin; [|contradiction].
    destruct Hin as [->|[]].
    eapply liveLoop_scheduled; [exact Hrun| |].
    + unfold fire. cbn. rewrite Ht. apply remove_only.
    + unfold nothingPending, fire. cbn. apply Hp. discriminate.
Qed.

(** ** The return value of a slice *)

Lemma cycle_run_unfold fuel (w : World) :
  cycle_run H fuel w =
  cycle_loop H fuel (slice_limit H w) (slice_start H w) (slice_entry w).
Proof. reflexivity. Qed.





(** ** Quota and deadline *)



(** ** Commands *)

Lemma lastPosted_post (m : WorkerToApp) (w : World) :
  lastPosted (post m w) = Some m.
Proof.
  unfold lastPosted, post. cbn. rewrite map_app. cbn. apply last_last.
Qed.

Lemma lastPosted_last (l : list WorkerToApp) (m : WorkerToApp) (w : World) :
  outbox w = l ++ [m] -> lastPosted w = Some m.
Proof.
  intros Hout. unfold lastPosted. rewrite Hout, map_app. cbn.
  apply last_last.
Qed.

Lemma inferState_post (m : WorkerToApp) (w : World) :
  inferState (post m w) = inferState w.
Proof. reflexivity. Qed.

Lemma pause_disarmed (w : World) : liveLoopHandle w = None -> pause w = w.
Proof. unfold pause. intros ->. reflexivity. Qed.

(** [resume] posts one message, and its non-null assertions hold whenever
    it is called with the state inferred from the flags. *)
Lemma resume_posts (state : State) (w w' : World) :
  resume state w = Some w' -> exists m, outbox w' = outbox w ++ [m].
Proof.
  unfold resume. destruct state.
  - destruct (queuedError w); [|discriminate].
    intros Heq; injection Heq as <-. cbn. eauto.
  - intros Heq; injection Heq as <-. cbn. eauto.
  - intros Heq; injection Heq as <-. cbn. eauto.
  - destruct (queuedFacts w); [|discriminate].
    intros Heq; injection Heq as <-. cbn. eauto.
  - intros Heq; injection Heq as <-. cbn. eauto.
Qed.

Lemma outbox_pause (w : World) : outbox (pause w) = outbox w.
Proof. unfold pause. destruct (liveLoopHandle w); reflexivity. Qed.

Lemma onmessage_posts (cmd : AppToWorker) (w w' : World) :
  onmessage cmd w = Some w' -> exists m, outbox w' = outbox w ++ [m].
Proof.
  unfold onmessage, dispatch. rewrite <- (outbox_pause w).
  destruct cmd.
  - apply resume_posts.
  - destruct (State_eqb _ _); apply resume_posts.
  - destruct (makeInitialDb cp); intros Hr; apply resume_posts in Hr;
      exact Hr.
  - destruct (State_eqb _ _); intros Hr; apply resume_posts in Hr;
      destruct Hr as [m Hm]; exists m; rewrite Hm; reflexivity.
  - intros Heq; injection Heq as <-. cbn. eauto.
Qed.

(** Every command is answered: [onmessage] never trips on a null. *)
Lemma onmessage_total (cmd : AppToWorker) (w : World) :
  exists w', onmessage cmd w = Some w'.
Proof.
  assert (Hecho : exists w', resume (inferState w) (pause w) = Some w').
  { unfold inferState, pause, resume.
    destruct (liveLoopHandle w) eqn:Hh; cbn; [eauto|].
    destruct (queuedError w) eqn:He; [eauto|].
    destruct (queuedFacts w) eqn:Hf; [eauto|].
    destruct (tree w); eauto. }
  unfold onmessage, dispatch. destruct cmd.
  - exact Hecho.
  - destruct (State_eqb _ _); [cbn; eauto|exact Hecho].
  - destruct (makeInitialDb cp); cbn; eauto.
  - destruct (State_eqb _ _); [cbn; eauto|exact Hecho].
  - eauto.
Qed.

(** C4.  From any world whatever, [reset] is answered, and leaves every
    variable of the worker at its initial value: zero counters, no tree, an
    empty path, no program, nothing queued, no timer held (the one held
    before is cancelled); it posts [reset] with the zero counters, and the
    state inferred afterwards is [Done], as before any program was
    loaded. *)
Theorem reset_total (w : World) :
  exists w',
    onmessage Reset w = Some w' /\
    stats w' = zeroStats /\
    tree w' = None /\ path w' = [] /\
    program w' = None /\
    queuedFacts w' = None /\ queuedError w' = None /\
    liveLoopHandle w' = None /\
    (forall h, liveLoopHandle w = Some h -> ~ In h (timers w')) /\
    outbox w' = outbox w ++ [MsgReset zeroStats] /\
    inferState w' = Done /\
    inferState w' = inferState (@blank T) /\
    (program w', queuedFacts w', queuedError w', stats w', tree w', path w',
     liveLoopHandle w') =
    (program (@blank T), queuedFacts (@blank T), queuedError (@blank T),
     stats (@blank T), tree (@blank T), path (@blank T),
     liveLoopHandle (@blank T)).
Proof.
  unfold onmessage, dispatch, pause, clearTimeout.
  destruct (liveLoopHandle w) as [h|] eqn:Hh.
  - eexists. split; [reflexivity|]. cbn. repeat split.
    intros h' Heq. injection Heq as <-. apply remove_In.
  - eexists. split; [reflexivity|]. cbn. rewrite Hh. repeat split;
      try discriminate; unfold inferState; cbn; rewrite Hh; reflexivity.
Qed.

(** C5.  In state [Error] each of [start], [stop] and [status] posts
    [error] with the queued message and the current counters and changes
    nothing else in the world: the message stays queued, counters, tree,
    path and program stay, no timer is armed, and the state is [Error]
    again.  From a reachable world in state [Error] no timer is pending, so
    the only events that lead out of [Error] are [load] and [reset]. *)
Theorem error_echo (w : World) (cmd : AppToWorker)
  (Hstate : inferState w = Error)
  (Hcmd : cmd = Start \/ cmd = Stop \/ cmd = Status) :
  exists message,
    queuedError w = Some message /\
    onmessage cmd w = Some (post (MsgError (stats w) message) w) /\
    inferState (post (MsgError (stats w) message) w) = Error /\
    liveLoopHandle w = None /\
    (reachable H w ->
     forall ev w',
       step H w ev w' -> inferState w' <> Error ->
       ev = Message Reset \/ exists cp, ev = Message (Load cp)).
Proof.
  pose proof Hstate as Hflags. unfold inferState in Hflags.
  destruct (liveLoopHandle w) eqn:Hh; [discriminate|].
  destruct (queuedError w) as [message|] eqn:He;
    [|flags w; discriminate].
  assert (Hecho : forall c, c = Start \/ c = Stop \/ c = Status ->
            onmessage c w = Some (post (MsgError (stats w) message) w)).
  { intros c Hc. unfold onmessage. rewrite Hstate, (pause_disarmed w Hh).
    destruct Hc as [->|[->| ->]]; cbn; rewrite He; reflexivity. }
  exists message. split; [reflexivity|]. split; [apply Hecho; exact Hcmd|].
  split; [rewrite inferState_post; exact Hstate|]. split; [reflexivity|].
  intros Hreach ev w' Hstep Hout.
  destruct Hstep as [w cmd' w' Hmsg|w h fuel w' Hin Hrun].
  - destruct cmd'; eauto;
      rewrite Hecho in Hmsg by tauto; injection Hmsg as <-;
      rewrite inferState_post in Hout; contradiction.
  - apply reachable_scheduled in Hreach. destruct Hreach as (Ht & _).
    rewrite Hh in Ht. rewrite Ht in Hin. contradiction.
Qed.

(** C6.  In a reachable world in state [Running] the worker holds the one
    pending timer.  [status] cancels it and sets a new one, with a new id,
    which is then the one pending timer and the one the worker holds; it
    posts [running] with the current counters; counters, tree, path,
    program and queued results stay as they were, no step is made and
    neither the clock nor the random generator is consulted. *)
Theorem status_while_running (w : World)
  (Hreach : reachable H w) (Hstate : inferState w = Running) :
  exists h w',
    liveLoopHandle w = Some h /\ timers w = [h] /\
    onmessage Status w = Some w' /\
    liveLoopHandle w' = Some (nextTimer w) /\
    timers w' = [nextTimer w] /\
    nextTimer w <> h /\
    outbox w' = outbox w ++ [MsgRunning (stats w)] /\
    stats w' = stats w /\ tree w' = tree w /\ path w' = path w /\
    program w' = program w /\
    queuedFacts w' = queuedFacts w /\ queuedError w' = queuedError w /\
    stepCalls w' = stepCalls w /\ nowCalls w' = nowCalls w /\
    randomCalls w' = randomCalls w /\ console w' = console w /\
    inferState w' = Running.
Proof.
  apply reachable_scheduled in Hreach. destruct Hreach as (Ht & Hlt & _).
  pose proof Hstate as Hflags. unfold inferState in Hflags.
  destruct (liveLoopHandle w) as [h|] eqn:Hh; [|flags w; discriminate].
  exists h. eexists. split; [reflexivity|]. split; [exact Ht|].
  unfold onmessage. rewrite Hstate. unfold pause. rewrite Hh.
  split; [reflexivity|]. cbn. rewrite Ht, remove_only.
  specialize (Hlt h eq_refl).
  repeat split. lia.
Qed.

Ltac by_flags u :=
  let Hh := fresh "Hh" in
  let He := fresh "He" in
  let Hf := fresh "Hf" in
  let Ht := fresh "Ht" in
  destruct (liveLoopHandle u) eqn:Hh; destruct (queuedError u) eqn:He;
  destruct (queuedFacts u) eqn:Hf; destruct (tree u) eqn:Ht;
  unfold onmessage, dispatch, pause, resume, inferState, clearTimeout,
    setTimeout, nothingPending;
  cbn; rewrite ?Hh, ?He, ?Hf, ?Ht; cbn.

Ltac posted Hrun Hlast :=
  injection Hrun as <-; try rewrite lastPosted_post in Hlast;
  try (injection Hlast; intros; subst); try discriminate.

(** A [saturated] message is only ever posted from state [Saturated], and
    then it carries the queued facts, which are dropped. *)
Lemma saturated_only_when_queued (cmd : AppToWorker) (u u' : World) st l b :
  onmessage cmd u = Some u' ->
  lastPosted u' = Some (MsgSaturated st l b) ->
  inferState u = Saturated /\
  (cmd = Status \/ cmd = Start \/ cmd = Stop) /\
  (exists fs, queuedFacts u = Some fs /\ l = map factToString fs) /\
  st = stats u /\
  (b = true <-> tree u = None) /\
  nothingPending u'.
Proof.
  intros Hrun Hlast.
  destruct cmd; [| | destruct (makeInitialDb cp) eqn:Hdb | |];
    revert Hrun; by_flags u; try rewrite Hdb; cbn; intros Hrun;
    posted Hrun Hlast; cbn; rewrite ?Hh, ?He, ?Hf, ?Ht;
    repeat split; eauto; try discriminate; try tauto.
Qed.

(** No command queues a solution. *)
Lemma commands_queue_no_solution (cmd : AppToWorker) (u u' : World) :
  onmessage cmd u = Some u' ->
  queuedFacts u = None ->
  queuedFacts u' = None /\
  forall st l b, lastPosted u' <> Some (MsgSaturated st l b).
Proof.
  intros Hrun Hnone.
  split.
  - destruct cmd; [| | destruct (makeInitialDb cp) eqn:Hdb | |];
      revert Hrun; by_flags u; try rewrite Hdb; cbn; intros Hrun;
      try discriminate; injection Hrun as <-; cbn; congruence.
  - intros st l b Hlast.
    destruct (saturated_only_when_queued _ _ Hrun Hlast)
      as (_ & _ & (fs & Hfs & _) & _).
    congruence.
Qed.

(** With nothing pending, the one way a command makes something pending is
    a [load] whose [makeInitialDb] throws. *)
Lemma commands_keep_nothing_pending (cmd : AppToWorker) (u u' : World) :
  onmessage cmd u = Some u' ->
  nothingPending u ->
  nothingPending u' \/
  exists cp e,
    cmd = Load cp /\ makeInitialDb cp = Throws e /\
    queuedError u' = Some e /\ queuedFacts u' = None.
Proof.
  intros Hrun [Hf0 He0].
  destruct cmd; [| | destruct (makeInitialDb cp) as [db|e] eqn:Hdb | |];
    revert Hrun; by_flags u; try rewrite Hdb; cbn; intros Hrun;
    try discriminate; injection Hrun as <-; cbn;
    try (left; split; congruence).
  all: right; exists cp, e; repeat split; auto.
Qed.

(** C3.  In state [Saturated] each of [status], [start] and [stop] posts
    [saturated] with the queued facts, each rendered by [factToString] and
    in their order, with [last] true exactly when the tree is null, and with
    the current counters; it then drops the queued facts, so nothing is
    pending afterwards and the state is no longer [Saturated].  Conversely
    [saturated] is posted in no other way; and once the facts are dropped no
    command posts [saturated] or queues anything, except that a failing
    [load] queues its error: only a slice can queue the next solution. *)
Theorem saturated_delivery (w : World) (cmd : AppToWorker)
  (Hstate : inferState w = Saturated)
  (Hcmd : cmd = Status \/ cmd = Start \/ cmd = Stop) :
  exists fs w',
    queuedFacts w = Some fs /\
    onmessage cmd w = Some w' /\
    outbox w' =
      outbox w ++
      [MsgSaturated (stats w) (map factToString fs)
         (match tree w with None => true | Some _ => false end)] /\
    nothingPending w' /\
    inferState w' <> Saturated /\
    stats w' = stats w /\ tree w' = tree w /\ path w' = path w /\
    program w' = program w /\ liveLoopHandle w' = None /\
    (forall c (u u' : World) st l b,
        onmessage c u = Some u' ->
        lastPosted u' = Some (MsgSaturated st l b) ->
        inferState u = Saturated /\
        (c = Status \/ c = Start \/ c = Stop) /\
        (exists fs', queuedFacts u = Some fs' /\ l = map factToString fs') /\
        st = stats u /\ (b = true <-> tree u = None) /\
        nothingPending u') /\
    (forall c (u u' : World),
        onmessage c u = Some u' -> queuedFacts u = None ->
        queuedFacts u' = None /\
        forall st l b, lastPosted u' <> Some (MsgSaturated st l b)) /\
    (forall c (u u' : World),
        onmessage c u = Some u' -> nothingPending u ->
        nothingPending u' \/
        exists cp e,
          c = Load cp /\ makeInitialDb cp = Throws e /\
          queuedError u' = Some e /\ queuedFacts u' = None).
Proof.
  pose proof Hstate as Hflags. revert Hflags. unfold inferState at 1.
  destruct (liveLoopHandle w) eqn:Hh; [discriminate|].
  destruct (queuedError w) eqn:He; [discriminate|].
  destruct (queuedFacts w) as [fs|] eqn:Hf; [|destruct (tree w); discriminate].
  intros _. exists fs. eexists. split; [reflexivity|].
  unfold onmessage. rewrite Hstate, (pause_disarmed w Hh).
  split.
  { destruct Hcmd as [->|[->| ->]]; cbn; rewrite Hf; reflexivity. }
  cbn. split; [reflexivity|].
  split; [split; [reflexivity|exact He]|].
  split.
  { unfold inferState; cbn; rewrite Hh, He; destruct (tree w); discriminate. }
  repeat (split; [reflexivity|]).
  split; [exact Hh|].
  split; [intros c u u' st l b; apply saturated_only_when_queued|].
  split; [intros c u u'; apply commands_queue_no_solution|].
  intros c u u'; apply commands_keep_nothing_pending.
Qed.

(** ** Loading *)

(** [load] when [makeInitialDb] returns. *)
Lemma load_returns (w : World) (cp : CompiledProgram) (db : Database) :
  makeInitialDb cp = Returns db ->
  exists w',
    onmessage (Load cp) w = Some w' /\
    stats w' = zeroStats /\ nothingPending w' /\
    tree w' = Some (leaf db) /\ path w' = [] /\
    program w' = Some (compiled_program cp) /\
    liveLoopHandle w' = None /\
    outbox w' = outbox w ++ [MsgPaused zeroStats] /\
    inferState w' = Paused.
Proof.
  intros Hdb. unfold onmessage, dispatch. rewrite Hdb.
  eexists. split; [reflexivity|]. unfold pause, nothingPending, inferState.
  destruct (liveLoopHandle w) eqn:Hh; cbn; rewrite ?Hh; repeat split.
Qed.

(** [load] when [makeInitialDb] throws: counters, path, program and queue
    are reset and the error is queued, but [tree] is assigned only after
    [makeInitialDb] has returned, so it keeps the tree it had. *)
Lemma load_throws (w : World) (cp : CompiledProgram) (e : string) :
  makeInitialDb cp = Throws e ->
  exists w',
    onmessage (Load cp) w = Some w' /\
    stats w' = zeroStats /\
    queuedFacts w' = None /\ queuedError w' = Some e /\
    tree w' = tree w /\ path w' = [] /\
    program w' = Some (compiled_program cp) /\
    liveLoopHandle w' = None /\
    outbox w' = outbox w ++ [MsgError zeroStats e] /\
    inferState w' = Error.
Proof.
  intros Hdb. unfold onmessage, dispatch. rewrite Hdb.
  eexists. split; [reflexivity|]. unfold pause, inferState.
  destruct (liveLoopHandle w) eqn:Hh; cbn; rewrite ?Hh; repeat split.
Qed.

(** ** Arming *)

Lemma armed_by (cmd : AppToWorker) (u u' : World) :
  onmessage cmd u = Some u' ->
  liveLoopHandle u' <> None ->
  (inferState u = Paused /\ cmd = Start) \/
  (inferState u = Running /\ (cmd = Start \/ cmd = Status)).
Proof.
  intros Hrun Harmed.
  destruct cmd; [| | destruct (makeInitialDb cp) as [db|e] eqn:Hdb | |];
    revert Hrun Harmed; by_flags u; try rewrite Hdb; cbn; intros Hrun;
    try discriminate; injection Hrun as <-; cbn; rewrite ?Hh;
    intros Harmed; try congruence; auto.
Qed.

Lemma slice_that_queues_disarms fuel (u u1 : World) x :
  cycle_run H fuel u = Some (x, u1) ->
  x = ExitSolution \/ x = ExitError ->
  cycle H fuel u = Some (false, u1) /\
  liveLoop H fuel u = Some (set_liveLoopHandle None u1).
Proof.
  intros Hrun Hx. unfold liveLoop, cycle. rewrite Hrun.
  destruct Hx as [-> | ->]; cbn; auto.
Qed.

Lemma slice_left_armed fuel (u u' : World) :
  liveLoop H fuel u = Some u' ->
  liveLoopHandle u' <> None ->
  samePending u u' /\ exists u1, cycle H fuel u = Some (true, u1).
Proof.
  unfold liveLoop. intros Hrun Harmed.
  destruct (cycle H fuel u) as [[b u1]|] eqn:Hc; [|discriminate].
  destruct b.
  - apply cycle_inv in Hc as (x & Hc' & Hb).
    apply cycle_run_keeps in Hc' as [_ Hs].
    injection Hrun as <-. split; [|eauto].
    unfold samePending in *. cbn. apply Hs. auto.
  - injection Hrun as <-. cbn in Harmed. congruence.
Qed.

(** C10.  In every reachable world, a held timer means nothing is pending:
    no queued facts and no queued error; so state [Running] never hides a
    solution or an error.  The reasons: a slice that leaves by the solution
    or the error exit makes [cycle] return [false], and [liveLoop] then
    drops the handle; a slice after which a timer is held has returned
    [true] and left the pending result as it found it; and a command leaves
    a timer held only when it is [start] in state [Paused], or [start] or
    [status] in state [Running]. *)
Theorem armed_means_nothing_pending (w : World) (Hreach : reachable H w) :
  (liveLoopHandle w <> None -> nothingPending w) /\
  (inferState w = Running -> nothingPending w) /\
  (forall fuel (u u1 : World) x,
      cycle_run H fuel u = Some (x, u1) ->
      x = ExitSolution \/ x = ExitError ->
      cycle H fuel u = Some (false, u1) /\
      liveLoop H fuel u = Some (set_liveLoopHandle None u1)) /\
  (forall fuel (u u' : World),
      liveLoop H fuel u = Some u' -> liveLoopHandle u' <> None ->
      samePending u u' /\ exists u1, cycle H fuel u = Some (true, u1)) /\
  (forall cmd (u u' : World),
      onmessage cmd u = Some u' -> liveLoopHandle u' <> None ->
      (inferState u = Paused /\ cmd = Start) \/
      (inferState u = Running /\ (cmd = Start \/ cmd = Status))).
Proof.
  pose proof (reachable_scheduled Hreach) as (_ & _ & Hp).
  split; [exact Hp|].
  split.
  { intros Hstate. apply Hp. unfold inferState in Hstate.
    destruct (liveLoopHandle w); [discriminate|]. flags w; discriminate. }
  split; [intros fuel u u1 x; apply slice_that_queues_disarms|].
  split; [intros fuel u u'; apply slice_left_armed|].
  intros cmd u u'; apply armed_by.
Qed.

(** ** The first slice after a load *)






(** ** Runs of events *)

Lemma runEvents_reachable fuel (evs : list Event) :
  forall w w' : World,
    reachable H w -> runEvents H fuel evs w = Some w' -> reachable H w'.
Proof.
  induction evs as [|ev evs IH]; cbn [runEvents]; intros w w' Hreach Hrun.
  - injection Hrun as <-. exact Hreach.
  - destruct (runEvent H fuel ev w) as [w1|] eqn:Hev; [|discriminate].
    apply (IH w1); [|exact Hrun].
    apply (reachable_step (ev := ev) Hreach).
    destruct ev as [cmd|h]; cbn [runEvent] in Hev.
    + apply step_message. exact Hev.
    + destruct (in_dec Nat.eq_dec h (timers w)) as [Hin|]; [|discriminate].
      eapply step_timeout; eauto.
Qed.

(** * Further properties of the worker *)

(** ** Replies *)

Lemma onmessage_reply (cmd : AppToWorker) (w : World) :
  exists w' m,
    onmessage cmd w = Some w' /\
    outbox w' = outbox w ++ [m] /\
    messageStats m = stats w' /\
    isHello m = false.
Proof.
  destruct cmd; [| | destruct (makeInitialDb cp) as [db|e] eqn:Hdb | |];
    by_flags w; try rewrite Hdb; cbn;
    eexists; eexists; (split; [reflexivity|]); cbn; repeat split.
Qed.

(** Whatever the world and the command, [onmessage] goes through (its
    non-null assertions hold) and posts exactly one message; the message
    carries the counters as the command leaves them and is never the
    greeting. *)
Theorem every_command_gets_one_reply (cmd : AppToWorker) (w : World) :
  exists w' m,
    onmessage cmd w = Some w' /\
    outbox w' = outbox w ++ [m] /\
    lastPosted w' = Some m /\
    messageStats m = stats w' /\
    isHello m = false.
Proof.
  destruct (onmessage_reply cmd w) as (w' & m & Hrun & Hout & Hst & Hh).
  exists w', m. split; [exact Hrun|]. split; [exact Hout|].
  split; [eapply lastPosted_last; exact Hout|]. split; assumption.
Qed.

(** ** What [start], [stop] and [status] leave alone *)

Lemma control_frame (cmd : AppToWorker) (w w' : World) :
  cmd = Status \/ cmd = Start \/ cmd = Stop ->
  onmessage cmd w = Some w' ->
  stats w' = stats w /\ tree w' = tree w /\ path w' = path w /\
  program w' = program w /\ queuedError w' = queuedError w /\
  stepCalls w' = stepCalls w /\ nowCalls w' = nowCalls w /\
  randomCalls w' = randomCalls w /\ console w' = console w /\
  (queuedFacts w' = queuedFacts w \/
   inferState w = Saturated /\ queuedFacts w' = None).
Proof.
  intros [->|[->| ->]]; by_flags w; intros Hrun; try discriminate;
    injection Hrun as <-; cbn; rewrite ?Hh, ?He, ?Hf, ?Ht;
    repeat split; auto.
Qed.

(** [start], [stop] and [status] never touch the search: counters, tree,
    path and program stay as they are, and so does the queued error; the
    engine, the clock and the random generator are not consulted and nothing
    is logged.  The queued facts stay too, unless the state is [Saturated]
    and they are delivered. *)
Theorem control_commands_keep_search (cmd : AppToWorker) (w w' : World)
  (Hcmd : cmd = Status \/ cmd = Start \/ cmd = Stop)
  (Hrun : onmessage cmd w = Some w') :
  stats w' = stats w /\ tree w' = tree w /\ path w' = path w /\
  program w' = program w /\ queuedError w' = queuedError w /\
  stepCalls w' = stepCalls w /\ nowCalls w' = nowCalls w /\
  randomCalls w' = randomCalls w /\ console w' = console w /\
  (queuedFacts w' = queuedFacts w \/
   inferState w = Saturated /\ queuedFacts w' = None).
Proof. eapply control_frame; eassumption. Qed.

(** In state [Paused], [status] and [stop] post [paused]; in state [Done],
    [status], [start] and [stop] post [done]; in both cases with the
    current counters and without any other change to the world, so that
    repeating them only lengthens the outbox. *)
Theorem idle_echo (cmd : AppToWorker) (w : World)
  (Hidle :
     inferState w = Paused /\ (cmd = Status \/ cmd = Stop) \/
     inferState w = Done /\ (cmd = Status \/ cmd = Start \/ cmd = Stop)) :
  exists m,
    onmessage cmd w = Some (post m w) /\
    m = (match inferState w with
         | Paused => MsgPaused (stats w)
         | _ => MsgDone (stats w)
         end) /\
    inferState (post m w) = inferState w /\
    onmessage cmd (post m w) = Some (post m (post m w)).
Proof.
  assert (Hh : liveLoopHandle w = None).
  { destruct Hidle as [[Hs _]|[Hs _]]; unfold inferState in Hs;
      destruct (liveLoopHandle w); [discriminate|reflexivity|discriminate|
                                     reflexivity]. }
  eexists. split; [|split; [reflexivity|split; [reflexivity|]]].
  - unfold onmessage. rewrite (pause_disarmed w Hh).
    destruct Hidle as [[Hs Hc]|[Hs Hc]]; rewrite Hs;
      [destruct Hc as [->| ->]|destruct Hc as [->|[->| ->]]]; reflexivity.
  - unfold onmessage. rewrite inferState_post.
    rewrite pause_disarmed by exact Hh.
    destruct Hidle as [[Hs Hc]|[Hs Hc]]; rewrite Hs;
      [destruct Hc as [->| ->]|destruct Hc as [->|[->| ->]]]; reflexivity.
Qed.

(** ** Loading *)

(** [load] is answered from any world.  It cancels the timer held, zeroes
    the counters, empties the path, stores the program and drops the queued
    facts.  If [makeInitialDb] returns, the tree is the leaf of the
    database it built, no error is queued, [paused] is posted and the state
    is [Paused]; if it throws, its message is queued, [error] is posted with
    it and the state is [Error].  Both messages carry zero counters. *)
Theorem load_outcome (w : World) (cp : CompiledProgram) :
  exists w',
    onmessage (Load cp) w = Some w' /\
    stats w' = zeroStats /\ path w' = [] /\
    program w' = Some (compiled_program cp) /\
    queuedFacts w' = None /\ liveLoopHandle w' = None /\
    (forall h, liveLoopHandle w = Some h -> ~ In h (timers w')) /\
    match makeInitialDb cp with
    | Returns db =>
        tree w' = Some (leaf db) /\ queuedError w' = None /\
        outbox w' = outbox w ++ [MsgPaused zeroStats] /\
        inferState w' = Paused
    | Throws e =>
        queuedError w' = Some e /\
        outbox w' = outbox w ++ [MsgError zeroStats e] /\
        inferState w' = Error
    end.
Proof.
  unfold onmessage, dispatch, pause, clearTimeout, inferState.
  destruct (makeInitialDb cp) as [db|e];
    destruct (liveLoopHandle w) as [h|] eqn:Hh; cbn;
    eexists; (split; [reflexivity|]); cbn; rewrite ?Hh;
    repeat split; try discriminate;
    intros h' Heq; injection Heq as <-; apply remove_In.
Qed.

(** ** Timers *)

(** In every reachable world at most one timer is pending, it is the one
    whose handle the worker holds, and its id is below the next id the host
    will give out. *)
Theorem one_timer_at_most (w : World) (Hreach : reachable H w) :
  (length (timers w) <= 1)%nat /\
  (forall h, In h (timers w) <-> liveLoopHandle w = Some h) /\
  (forall h, In h (timers w) -> (h < nextTimer w)%nat).
Proof.
  destruct (reachable_scheduled Hreach) as (Ht & Hlt & _).
  destruct (liveLoopHandle w) as [h0|] eqn:Hh; rewrite Ht; cbn.
  - split; [lia|]. split.
    + intros h. split; [intros [->|[]]; reflexivity|].
      intros Heq; injection Heq as ->. left; reflexivity.
    + intros h [<-|[]]. apply Hlt. reflexivity.
  - split; [lia|]. split.
    + intros h. split; [intros []|discriminate].
    + intros h [].
Qed.

Lemma disarmed_after (cmd : AppToWorker) (w w' : World) :
  cmd = Stop \/ cmd = Reset \/ (exists cp, cmd = Load cp) ->
  onmessage cmd w = Some w' -> liveLoopHandle w' = None.
Proof.
  intros [->|[->|[cp ->]]];
    [| |destruct (makeInitialDb cp) as [db|e] eqn:Hdb]; by_flags w;
    try rewrite Hdb; cbn; intros Hrun; try discriminate;
    injection Hrun as <-; cbn; rewrite ?Hh; reflexivity.
Qed.

Lemma no_timer_no_slice (w w' : World) (h : nat) :
  timers w = [] -> ~ step H w (Timeout h) w'.
Proof.
  intros Ht Hstep. remember (Timeout h) as ev eqn:Hev.
  destruct Hstep as [w cmd w' _|w h' fuel w' Hin _]; [discriminate|].
  rewrite Ht in Hin. contradiction.
Qed.

(** From a reachable world, [stop], [reset] and [load] leave no timer held
    and none pending: once one of them has been processed, no slice can
    start until a later command arms one. *)
Theorem disarming_commands_stop_the_loop (cmd : AppToWorker) (w : World)
  (Hreach : reachable H w)
  (Hcmd : cmd = Stop \/ cmd = Reset \/ (exists cp, cmd = Load cp)) :
  exists w',
    onmessage cmd w = Some w' /\
    liveLoopHandle w' = None /\
    timers w' = [] /\
    inferState w' <> Running /\
    forall h w'', ~ step H w' (Timeout h) w''.
Proof.
  destruct (onmessage_total cmd w) as [w' Hrun].
  pose proof (@disarmed_after cmd w w' Hcmd Hrun) as Hh.
  pose proof (@onmessage_scheduled cmd w w' (reachable_scheduled Hreach)
                Hrun) as (Ht & _ & _).
  rewrite Hh in Ht.
  exists w'. split; [exact Hrun|]. split; [exact Hh|]. split; [exact Ht|].
  split.
  - unfold inferState. rewrite Hh. flags w'; discriminate.
  - intros h w''. apply no_timer_no_slice. exact Ht.
Qed.

(** [start] and then [stop], with no slice in between, from a reachable
    world in state [Paused]: [start] sets the one pending timer and posts
    [running], [stop] cancels it and posts [paused]; the state is [Paused]
    again and counters, tree, path, program and queue are as before; the
    engine was not called. *)
Theorem start_then_stop (w : World)
  (Hreach : reachable H w) (Hstate : inferState w = Paused) :
  exists w1 w2,
    onmessage Start w = Some w1 /\
    liveLoopHandle w1 = Some (nextTimer w) /\
    timers w1 = [nextTimer w] /\
    onmessage Stop w1 = Some w2 /\
    outbox w2 = outbox w ++ [MsgRunning (stats w); MsgPaused (stats w)] /\
    liveLoopHandle w2 = None /\ timers w2 = [] /\
    inferState w2 = Paused /\
    stats w2 = stats w /\ tree w2 = tree w /\ path w2 = path w /\
    program w2 = program w /\
    queuedFacts w2 = queuedFacts w /\ queuedError w2 = queuedError w /\
    stepCalls w2 = stepCalls w.
Proof.
  destruct (reachable_scheduled Hreach) as (Ht & _ & _).
  pose proof Hstate as Hflags. unfold inferState in Hflags.
  destruct (liveLoopHandle w) eqn:Hh; [discriminate|].
  destruct (queuedError w) eqn:He; [discriminate|].
  destruct (queuedFacts w) eqn:Hf; [discriminate|].
  destruct (tree w) eqn:Htr; [|discriminate].
  eexists. eexists.
  split.
  { unfold onmessage. rewrite Hstate, pause_disarmed by exact Hh.
    reflexivity. }
  cbn. rewrite Ht. cbn.
  split; [reflexivity|]. split; [reflexivity|].
  split.
  { unfold onmessage, inferState, pause, clearTimeout. cbn.
    destruct (Nat.eq_dec (nextTimer w) (nextTimer w)); [|congruence].
    reflexivity. }
  cbn. rewrite <- app_assoc. cbn.
  unfold inferState. cbn. rewrite He, Hf, Htr.
  repeat split.
Qed.

(** ** After a delivery *)

(** In state [Saturated] a [start] (like [status] and [stop]) only delivers
    the solution: no timer is set.  The state is then [Paused] if the tree
    is still there and [Done] if it is null, and it takes a further [start]
    to go on searching: that one sets a timer and posts [running] in the
    first case, and posts [done] in the second. *)
Theorem delivery_then_start (cmd : AppToWorker) (w : World)
  (Hstate : inferState w = Saturated)
  (Hcmd : cmd = Status \/ cmd = Start \/ cmd = Stop) :
  exists w' w'',
    onmessage cmd w = Some w' /\
    liveLoopHandle w' = None /\ timers w' = timers w /\
    inferState w' =
      match tree w with None => Done | Some _ => Paused end /\
    onmessage Start w' = Some w'' /\
    match tree w with
    | None =>
        lastPosted w'' = Some (MsgDone (stats w)) /\
        liveLoopHandle w'' = None
    | Some _ =>
        lastPosted w'' = Some (MsgRunning (stats w)) /\
        liveLoopHandle w'' = Some (nextTimer w) /\
        In (nextTimer w) (timers w'')
    end.
Proof.
  pose proof Hstate as Hflags. unfold inferState in Hflags.
  destruct (liveLoopHandle w) eqn:Hh; [discriminate|].
  destruct (queuedError w) eqn:He; [discriminate|].
  destruct (queuedFacts w) as [fs|] eqn:Hf;
    [|destruct (tree w); discriminate].
  assert (Hfirst :
            onmessage cmd w =
            Some (post (MsgSaturated (stats w) (map factToString fs)
                          match tree w with Some _ => false | None => true end)
                    (set_queuedFacts None w))).
  { unfold onmessage. rewrite Hstate, pause_disarmed by exact Hh.
    destruct Hcmd as [->|[->| ->]]; cbn; rewrite Hf; reflexivity. }
  destruct (tree w) as [tr|] eqn:Htr.
  - eexists. eexists. split; [exact Hfirst|].
    split; [exact Hh|]. split; [reflexivity|].
    split; [unfold inferState; cbn; rewrite Hh, He, Htr; reflexivity|].
    split.
    { unfold onmessage, inferState, pause. cbn. rewrite Hh, He, Htr.
      reflexivity. }
    split; [apply lastPosted_post|]. split; [reflexivity|].
    cbn. apply in_or_app. right. left. reflexivity.
  - eexists. eexists. split; [exact Hfirst|].
    split; [exact Hh|]. split; [reflexivity|].
    split; [unfold inferState; cbn; rewrite Hh, He, Htr; reflexivity|].
    split.
    { unfold onmessage, inferState, pause. cbn. rewrite Hh, He, Htr.
      reflexivity. }
    split; [apply lastPosted_post|]. exact Hh.
Qed.

(** ** How much a slice does *)

Lemma loop_body_calls (w w' : World) (x : CycleExit) :
  loop_body w = Return x w' ->
  (stepCalls w <= stepCalls w' <= S (stepCalls w))%nat.
Proof.
  body_cases w; intros Heq; try discriminate; injection Heq as <- <-; cbn;
    lia.
Qed.

Lemma loop_cond_keeps limit start (w w1 : World) (c : bool) :
  loop_cond H limit start w = (c, w1) ->
  stepCalls w1 = stepCalls w /\ stats w1 = stats w.
Proof.
  unfold loop_cond, performance_now.
  destruct (ltb (num (cycles (stats w))) limit); intros Heq;
    injection Heq; intros; subst w1; cbn; auto.
Qed.

Lemma loop_body_stats (Hcount : counts_steps) (w : World) :
  match loop_body w with
  | Continue w' | Return _ w' => (cycles (stats w) <= cycles (stats w'))%N
  end.
Proof.
  body_cases w; cbn; try lia;
    pose proof (Hcount (stepCalls w) (program w) tr (path w) (stats w))
      as Hinc; rewrite Hstep in Hinc; cbn in Hinc; lia.
Qed.

Lemma cycle_loop_calls (Hcount : counts_steps) limit start fuel :
  forall (w : World) x w',
    cycle_loop H fuel limit start w = Some (x, w') ->
    (0 <= Z.of_nat (stepCalls w') - Z.of_nat (stepCalls w)
     <= passesLeft limit w)%Z.
Proof.
  induction fuel as [|fuel IH]; intros w x w' Hrun; [discriminate|].
  cbn [cycle_loop] in Hrun. unfold passesLeft in *.
  destruct (loop_cond H limit start w) as [c w1] eqn:Hc.
  pose proof (loop_cond_keeps _ _ _ Hc) as [Hk Hs].
  destruct c.
  - apply loop_cond_true in Hc as [[Hq _] _].
    apply below_limit_ceiling in Hq.
    destruct (loop_body w1) as [w2|x' w2] eqn:Hb.
    + pose proof (loop_body_stats Hcount w1) as Hinc. rewrite Hb in Hinc.
      apply loop_body_continue in Hb as (_ & _ & _ & Hk2 & _ & tr & _ & Hst).
      pose proof (Hcount (stepCalls w1) (program w1) tr (path w1) (stats w1))
        as Hlt.
      unfold step_from in Hst. rewrite <- Hst, Hs in Hlt.
      specialize (IH _ _ _ Hrun). lia.
    + injection Hrun as -> ->. apply loop_body_calls in Hb. lia.
  - injection Hrun as <- <-. lia.
Qed.

Lemma limit_ceiling (st : WorkerStats) (r : Q) :
  r < 1 ->
  (Qceiling (cycle_limit st r) <= Z.of_N (cycles st) + 20000)%Z.
Proof.
  intros Hr.
  rewrite <- (Qceiling_Z (Z.of_N (cycles st) + 20000)).
  apply Qceiling_resp_le. rewrite inject_Z_plus.
  unfold cycle_limit, num, CYCLE_LIMIT.
  change (inject_Z 20000) with 20000. lra.
Qed.

(** With an engine that counts its steps and a random draw in [0, 1), one
    slice calls the engine at most 20000 times, whatever the clock reads. *)
Theorem slice_step_bound (Hcount : counts_steps) (w w' : World) (x : CycleExit)
  (fuel : nat)
  (Hrandom : random H (randomCalls w) < 1)
  (Hrun : cycle_run H fuel w = Some (x, w')) :
  (Z.of_nat (stepCalls w) <= Z.of_nat (stepCalls w')
   <= Z.of_nat (stepCalls w) + 20000)%Z.
Proof.
  rewrite cycle_run_unfold in Hrun.
  pose proof (cycle_loop_calls Hcount _ _ _ _ Hrun) as Hcalls.
  pose proof (limit_ceiling (stats w) Hrandom) as Hceil.
  unfold passesLeft, slice_limit in Hcalls. cbn in Hcalls. lia.
Qed.


Lemma cycle_loop_stats (Hcount : counts_steps) limit start fuel :
  forall (w : World) x w',
    cycle_loop H fuel limit start w = Some (x, w') ->
    (cycles (stats w) <= cycles (stats w'))%N.
Proof.
  induction fuel as [|fuel IH]; intros w x w' Hrun; [discriminate|].
  cbn [cycle_loop] in Hrun.
  destruct (loop_cond H limit start w) as [c w1] eqn:Hc.
  pose proof (loop_cond_keeps _ _ _ Hc) as [_ Hs].
  destruct c.
  - pose proof (loop_body_stats Hcount w1) as Hinc.
    destruct (loop_body w1) as [w2|x' w2].
    + specialize (IH _ _ _ Hrun). rewrite Hs in Hinc. lia.
    + injection Hrun as -> ->. rewrite Hs in Hinc. exact Hinc.
  - injection Hrun as <- <-. rewrite Hs. lia.
Qed.

Lemma liveLoop_inv fuel (w w' : World) :
  liveLoop H fuel w = Some w' ->
  exists x u,
    cycle_run H fuel w = Some (x, u) /\
    w' = (if returns x
          then set_liveLoopHandle (Some (nextTimer u)) (snd (setTimeout u))
          else set_liveLoopHandle None u).
Proof.
  unfold liveLoop, cycle.
  destruct (cycle_run H fuel w) as [[x u]|]; [|discriminate].
  intros Heq. exists x, u. split; [reflexivity|].
  destruct (returns x); injection Heq as <-; reflexivity.
Qed.

Lemma zeroed_after (cmd : AppToWorker) (w w' : World) :
  cmd = Reset \/ (exists cp, cmd = Load cp) ->
  onmessage cmd w = Some w' -> stats w' = zeroStats.
Proof.
  intros [->|[cp ->]];
    [|destruct (makeInitialDb cp) as [db|e] eqn:Hdb]; by_flags w;
    try rewrite Hdb; cbn; intros Hrun; try discriminate;
    injection Hrun as <-; reflexivity.
Qed.

(** With an engine that counts its steps, the step counter never goes
    down from one event to the next, except that [load] and [reset] set the
    counters to zero. *)
Theorem cycles_never_decrease (Hcount : counts_steps) (w w' : World)
  (ev : Event) (Hstep : step H w ev w') :
  (cycles (stats w) <= cycles (stats w'))%N \/
  (ev = Message Reset \/ exists cp, ev = Message (Load cp)) /\
  stats w' = zeroStats.
Proof.
  destruct Hstep as [w cmd w' Hmsg|w h fuel w' Hin Hrun].
  - destruct cmd.
    + left. eapply control_frame in Hmsg; [|tauto].
      destruct Hmsg as (-> & _). lia.
    + left. eapply control_frame in Hmsg; [|tauto].
      destruct Hmsg as (-> & _). lia.
    + right. split; [eauto|].
      eapply zeroed_after; [|exact Hmsg]. eauto.
    + left. eapply control_frame in Hmsg; [|tauto].
      destruct Hmsg as (-> & _). lia.
    + right. split; [auto|].
      eapply zeroed_after; [|exact Hmsg]. auto.
  - left. apply liveLoop_inv in Hrun as (x & u & Hrun & ->).
    rewrite cycle_run_unfold in Hrun.
    apply (cycle_loop_stats Hcount) in Hrun. cbn in Hrun.
    destruct (returns x); cbn; exact Hrun.
Qed.

(** ** What a slice leaves behind *)

Lemma slice_flags fuel (w u : World) (h : nat) (x : CycleExit) :
  reachable H w -> In h (timers w) ->
  cycle_run H fuel (fire h w) = Some (x, u) ->
  liveLoopHandle w = Some h /\
  outbox u = outbox w /\ timers u = [] /\
  match x with
  | ExitLoopEnd => nothingPending u
  | ExitExhausted => nothingPending u /\ tree u = None
  | ExitSolution =>
      (exists fs, queuedFacts u = Some fs) /\ queuedError u = None
  | ExitError => exists e, queuedError u = Some e
  end.
Proof.
  intros Hreach Hin Hrun.
  destruct (reachable_scheduled Hreach) as (Ht & _ & Hp).
  destruct (liveLoopHandle w) as [h'|] eqn:Hh;
    rewrite Ht in Hin; cbn in Hin; [|contradiction].
  destruct Hin as [->|[]].
  destruct (Hp ltac:(discriminate)) as [Hf He].
  rewrite cycle_run_unfold in Hrun.
  apply cycle_loop_spec in Hrun as (wl & Hpass & Hexit & Hu).
  apply passes_keep in Hpass as (Hu' & [Hf' He'] & _ & _).
  destruct Hu as (_ & Htu & _ & Hou & _).
  destruct Hu' as (_ & Htl & _ & Hol & _).
  cbn in Htl, Hol, Hf', He'.
  split; [reflexivity|].
  split; [congruence|].
  split; [rewrite Htu, Htl, Ht; apply remove_only|].
  unfold nothingPending.
  destruct x; cbn in Hexit.
  - destruct Hexit as (_ & Htree & ->). cbn.
    repeat split; congruence.
  - destruct Hexit as (_ & tr & s & st' & res & sol & _ & _ & _ & _ & Hq
                       & Hqe & _).
    split; [eauto|congruence].
  - destruct Hexit as (_ & tr & e & _ & _ & Hqe & _). eauto.
  - destruct Hexit as [[_ ->]|(_ & _ & ->)]; cbn; split; congruence.
Qed.

(** When the pending timer of a reachable world fires, the state inferred
    afterwards is decided by the way the slice ended: [Running] if it asked
    to be rescheduled, [Done] if it found the tree null, [Saturated] if it
    queued a solution, [Error] if it queued an error.  It is never
    [Paused]; a timer is held afterwards only in the first case; and the
    slice has posted nothing. *)
Theorem slice_outcome_state fuel (w u : World) (h : nat) (x : CycleExit)
  (Hreach : reachable H w) (Hin : In h (timers w))
  (Hrun : cycle_run H fuel (fire h w) = Some (x, u)) :
  exists w',
    liveLoop H fuel (fire h w) = Some w' /\
    step H w (Timeout h) w' /\
    inferState w' = stateAfter x /\
    inferState w' <> Paused /\
    (liveLoopHandle w' <> None <-> x = ExitLoopEnd) /\
    outbox w' = outbox w.
Proof.
  pose proof (@slice_flags fuel w u h x Hreach Hin Hrun)
    as (_ & Hout & _ & Hflags).
  assert (Hlive : exists w', liveLoop H fuel (fire h w) = Some w' /\
            w' = (if returns x
                  then set_liveLoopHandle (Some (nextTimer u))
                         (snd (setTimeout u))
                  else set_liveLoopHandle None u)).
  { unfold liveLoop, cycle. rewrite Hrun.
    destruct (returns x); eexists; split; reflexivity. }
  destruct Hlive as (w' & Hlive & Hw').
  exists w'. split; [exact Hlive|].
  split; [eapply step_timeout; eauto|].
  unfold nothingPending in Hflags.
  destruct x; cbn in Hw'; subst w'; unfold inferState; cbn.
  - destruct Hflags as ([-> ->] & ->).
    repeat split; try discriminate; try congruence.
  - destruct Hflags as ([fs ->] & ->).
    repeat split; try discriminate; try congruence.
  - destruct Hflags as [e ->].
    repeat split; try discriminate; try congruence.
  - repeat split; try discriminate; try congruence.
Qed.

(** What a slice queued is what the next [status] reports.  After the
    pending timer of a reachable world has fired, [status] posts, with the
    counters the slice left: [saturated] with the queued facts rendered and
    [last] true exactly for a null tree, if the slice queued a solution;
    [error] with the queued message, if it queued an error; [done], if it
    found the tree null; [running], if it asked to be rescheduled. *)
Theorem slice_result_is_reported fuel (w u : World) (h : nat) (x : CycleExit)
  (Hreach : reachable H w) (Hin : In h (timers w))
  (Hrun : cycle_run H fuel (fire h w) = Some (x, u)) :
  exists w' w'',
    liveLoop H fuel (fire h w) = Some w' /\
    onmessage Status w' = Some w'' /\
    outbox w'' = outbox w ++
      [match x with
       | ExitLoopEnd => MsgRunning (stats u)
       | ExitExhausted => MsgDone (stats u)
       | ExitSolution =>
           MsgSaturated (stats u)
             (map factToString
                (match queuedFacts u with Some fs => fs | None => [] end))
             (match tree u with None => true | Some _ => false end)
       | ExitError =>
           MsgError (stats u)
             (match queuedError u with Some e => e | None => EmptyString end)
       end] /\
    match x with
    | ExitSolution => queuedFacts u <> None
    | ExitError => queuedError u <> None
    | _ => True
    end.
Proof.
  pose proof (@slice_flags fuel w u h x Hreach Hin Hrun)
    as (_ & Hout & _ & Hflags).
  unfold nothingPending in Hflags.
  unfold liveLoop, cycle. rewrite Hrun.
  destruct x; cbn [returns].
  - destruct Hflags as ([Hf He] & Htr).
    eexists. eexists. split; [reflexivity|].
    unfold onmessage, inferState, pause. cbn. rewrite Hf, He, Htr. cbn.
    split; [reflexivity|]. cbn. rewrite Hout. auto.
  - destruct Hflags as ([fs Hf] & He).
    eexists. eexists. split; [reflexivity|].
    unfold onmessage, inferState, pause. cbn. rewrite Hf, He. cbn.
    rewrite Hf. split; [reflexivity|]. cbn. rewrite Hout.
    split; [reflexivity|discriminate].
  - destruct Hflags as [e He].
    eexists. eexists. split; [reflexivity|].
    unfold onmessage, inferState, pause. cbn. rewrite He. cbn.
    rewrite He. split; [reflexivity|]. cbn. rewrite Hout.
    split; [reflexivity|discriminate].
  - eexists. eexists. split; [reflexivity|].
    unfold onmessage, inferState, pause. cbn.
    split; [reflexivity|]. cbn. rewrite Hout. auto.
Qed.

(** ** The program the engine is given *)





(** ** The outbox over a run *)

Lemma liveLoop_outbox fuel (w w' : World) :
  liveLoop H fuel w = Some w' -> outbox w' = outbox w.
Proof.
  intros Hrun. apply liveLoop_inv in Hrun as (x & u & Hrun & ->).
  apply cycle_run_keeps in Hrun as [(_ & _ & _ & Hout & _) _].
  destruct (returns x); exact Hout.
Qed.

(** Over any run of events the worker posts exactly one message per
    command and none when a timer fires: a slice never posts. *)
Theorem replies_match_commands fuel (evs : list Event) (w w' : World)
  (Hrun : runEvents H fuel evs w = Some w') :
  length (outbox w') = (length (outbox w) + countMessages evs)%nat.
Proof.
  revert w Hrun. unfold countMessages.
  induction evs as [|ev evs IH]; cbn [runEvents]; intros w Hrun.
  - injection Hrun as <-. cbn. lia.
  - destruct (runEvent H fuel ev w) as [w1|] eqn:Hev; [|discriminate].
    specialize (IH _ Hrun). rewrite IH.
    destruct ev as [cmd|h]; cbn [runEvent] in Hev; cbn.
    + destruct (onmessage_reply cmd w) as (w2 & m & Hw2 & Hout & _).
      assert (w2 = w1) by congruence. subst w2.
      rewrite Hout, length_app. cbn. lia.
    + destruct (in_dec Nat.eq_dec h (timers w)); [|discriminate].
      apply liveLoop_outbox in Hev. rewrite Hev. reflexivity.
Qed.

(** The greeting is the first message of every reachable world, and it is
    never posted again. *)
Theorem hello_once (w : World) (Hreach : reachable H w) :
  exists rest,
    outbox w = MsgHello zeroStats :: rest /\
    forallb (fun m => negb (isHello m)) rest = true.
Proof.
  induction Hreach as [|w ev w' Hr IH Hstep].
  - exists []. split; reflexivity.
  - destruct IH as (rest & Hout & Hrest).
    destruct Hstep as [w cmd w' Hmsg|w h fuel w' Hin Hrun].
    + destruct (onmessage_reply cmd w) as (w2 & m & Hw2 & Hout2 & _ & Hm).
      assert (w2 = w') by congruence. subst w2.
      exists (rest ++ [m]). split; [rewrite Hout2, Hout; reflexivity|].
      rewrite forallb_app, Hrest. cbn. rewrite Hm. reflexivity.
    + exists rest. apply liveLoop_outbox in Hrun. cbn in Hrun.
      split; [congruence|exact Hrest].
Qed.

(** ** Flattening a solution *)

(** [flatten] keeps every fact of the solution and invents none: a fact is
    in the flattened list exactly when its arguments and value are listed
    under its name.  The list has one fact per listed pair, and the facts of
    an entry come before those of the entries after it, in the order of
    their pairs. *)
Theorem flatten_facts (sol : Solution) :
  (forall f : Fact,
      In f (flatten sol) <->
      exists argses,
        In (name f, argses) (facts sol) /\ In (args f, value f) argses) /\
  length (flatten sol) =
    list_sum (map (fun entry => length (snd entry)) (facts sol)) /\
  (forall nm argses rest,
      facts sol = (nm, argses) :: rest ->
      flatten sol =
      map (fun av => mkFact nm (fst av) (snd av)) argses
        ++ flatten (mkSolution rest)).
Proof.
  unfold flatten. split; [|split].
  - intros f. rewrite in_concat. split.
    + intros (l & Hl & Hf). apply in_map_iff in Hl as ([nm argses] & <- & Hin).
      apply in_map_iff in Hf as ([a v] & <- & Hav). cbn.
      exists argses. auto.
    + intros (argses & Hin & Hav).
      eexists. split.
      * apply in_map_iff. exists (name f, argses).
        split; [reflexivity|exact Hin].
      * apply in_map_iff. exists (args f, value f). split; [|exact Hav].
        destruct f; reflexivity.
  - rewrite length_concat, map_map. f_equal.
    apply map_ext. intros [nm argses]. cbn. apply length_map.
  - intros nm argses rest ->. cbn. f_equal.
    apply map_ext. intros [a v]. reflexivity.
Qed.

(** ** The console *)



End WorkerFacts.

(** * The worker on the sample engine *)

Section SampleRuns.

Lemma sampleAfter_reachable (H : Host) (evs : list Event) :
  reachable H (sampleAfter H evs).
Proof.
  unfold sampleAfter.
  destruct (runEvents H 5 evs init) as [w|] eqn:Hrun;
    [|apply reachable_init].
  eapply runEvents_reachable; [apply reachable_init|exact Hrun].
Qed.

Lemma sample_counts_steps : @counts_steps sampleTypes sampleEngine.
Proof.
  intros k p tr pth st.
  destruct tr as [|[|[|[|n]]]]; cbn; lia.
Qed.



(** [saturated_delivery] on the sample engine: [status] after program [1]
    has found its solution. *)
Lemma saturated_delivery_witness :
  inferState (sampleAfter steadyHost sampleSaturated) = Saturated /\
  (Status = Status \/ @Status sampleTypes = Start \/
   @Status sampleTypes = Stop) /\
  exists fs w',
    queuedFacts (sampleAfter steadyHost sampleSaturated) = Some fs /\
    onmessage Status (sampleAfter steadyHost sampleSaturated) = Some w' /\
    lastPosted w' =
      Some (MsgSaturated {| cycles := 1; deadEnds := 0 |}
              ["edge"%string; "edge"%string; "colour"%string] true) /\
    nothingPending w'.
Proof.
  assert (Hstate : inferState (sampleAfter steadyHost sampleSaturated)
                   = Saturated) by (vm_compute; reflexivity).
  assert (Hcmd : Status = Status \/ @Status sampleTypes = Start \/
                 @Status sampleTypes = Stop) by (left; reflexivity).
  split; [exact Hstate|]. split; [exact Hcmd|].
  destruct (@saturated_delivery sampleTypes sampleEngine
              (sampleAfter steadyHost sampleSaturated) Status Hstate Hcmd)
    as (fs & w' & Hfs & Hrun & Hout & Hpend & _).
  exists fs, w'. split; [exact Hfs|]. split; [exact Hrun|].
  split; [|exact Hpend].
  erewrite lastPosted_last; [|exact Hout].
  vm_compute in Hfs. injection Hfs as <-. vm_compute. reflexivity.
Defined.

(** [error_echo] on the sample engine: [status] after the step of program
    [2] has thrown. *)
Lemma error_echo_witness :
  inferState (sampleAfter steadyHost sampleFailed) = Error /\
  (@Status sampleTypes = Start \/ @Status sampleTypes = Stop \/
   Status = Status) /\
  exists message,
    queuedError (sampleAfter steadyHost sampleFailed) = Some message /\
    message = "Error: step failed"%string /\
    onmessage Status (sampleAfter steadyHost sampleFailed) =
      Some (post (MsgError (stats (sampleAfter steadyHost sampleFailed))
                    message)
              (sampleAfter steadyHost sampleFailed)).
Proof.
  assert (Hstate : inferState (sampleAfter steadyHost sampleFailed) = Error)
    by (vm_compute; reflexivity).
  assert (Hcmd : @Status sampleTypes = Start \/ @Status sampleTypes = Stop \/
                 Status = Status) by (right; right; reflexivity).
  split; [exact Hstate|]. split; [exact Hcmd|].
  destruct (@error_echo sampleTypes sampleEngine steadyHost
              (sampleAfter steadyHost sampleFailed) Status Hstate Hcmd)
    as (message & Hmsg & Hrun & _).
  exists message. split; [exact Hmsg|]. split; [|exact Hrun].
  vm_compute in Hmsg. injection Hmsg as <-. reflexivity.
Defined.

(** [status_while_running] on the sample engine: [status] right after
    program [7] was started. *)
Lemma status_while_running_witness :
  reachable steadyHost (sampleAfter steadyHost sampleRunning) /\
  inferState (sampleAfter steadyHost sampleRunning) = Running /\
  exists h w',
    liveLoopHandle (sampleAfter steadyHost sampleRunning) = Some h /\
    timers (sampleAfter steadyHost sampleRunning) = [h] /\
    onmessage Status (sampleAfter steadyHost sampleRunning) = Some w' /\
    liveLoopHandle w' = Some 1 /\
    timers w' = [1] /\
    stats w' = stats (sampleAfter steadyHost sampleRunning) /\
    tree w' = tree (sampleAfter steadyHost sampleRunning).
Proof.
  assert (Hreach : reachable steadyHost (sampleAfter steadyHost sampleRunning))
    by apply sampleAfter_reachable.
  assert (Hstate : inferState (sampleAfter steadyHost sampleRunning) = Running)
    by (vm_compute; reflexivity).
  split; [exact Hreach|]. split; [exact Hstate|].
  destruct (@status_while_running sampleTypes sampleEngine steadyHost
              (sampleAfter steadyHost sampleRunning) Hreach Hstate)
    as (h & w' & Hh & Ht & Hrun & Hh' & Ht' & _ & _ & Hst & Htr & _).
  exists h, w'. auto 10.
Defined.

(** C7, where the code departs from it.  Program [2] is loaded, then
    program [13], whose [makeInitialDb] throws.  The second [load] resets
    the counters, the path, the queue and [program], queues the error and
    posts [error], but [tree] is still the leaf built for program [2]: the
    previous search state is not destroyed with the previous program. *)
Lemma failed_load_keeps_previous_tree :
  exists w1 w2 : @World sampleTypes,
    onmessage (Load 2) init = Some w1 /\
    tree w1 = Some (leaf 2) /\ program w1 = Some (compiled_program 2) /\
    makeInitialDb 13 = Throws "Error: cannot load"%string /\
    onmessage (Load 13) w1 = Some w2 /\
    program w2 = Some (compiled_program 13) /\
    tree w2 = Some (leaf 2) /\
    tree w2 <> None /\
    stats w2 = zeroStats /\ path w2 = [] /\
    queuedFacts w2 = None /\
    queuedError w2 = Some "Error: cannot load"%string /\
    lastPosted w2 = Some (MsgError zeroStats "Error: cannot load") /\
    inferState w2 = Error.
Proof.
  eexists. eexists.
  split; [vm_compute; reflexivity|].
  split; [vm_compute; reflexivity|].
  split; [vm_compute; reflexivity|].
  split; [vm_compute; reflexivity|].
  split; [vm_compute; reflexivity|].
  split; [vm_compute; reflexivity|].
  split; [vm_compute; reflexivity|].
  split; [vm_compute; discriminate|].
  repeat split; vm_compute; reflexivity.
Qed.




(** [armed_means_nothing_pending] on the sample engine: program [7] loaded
    and started, timer [0] held. *)
Lemma armed_means_nothing_pending_witness :
  reachable steadyHost (sampleAfter steadyHost sampleRunning) /\
  liveLoopHandle (sampleAfter steadyHost sampleRunning) = Some 0 /\
  (liveLoopHandle (sampleAfter steadyHost sampleRunning) <> None ->
   nothingPending (sampleAfter steadyHost sampleRunning)) /\
  (inferState (sampleAfter steadyHost sampleRunning) = Running ->
   nothingPending (sampleAfter steadyHost sampleRunning)).
Proof.
  assert (Hreach : reachable steadyHost (sampleAfter steadyHost sampleRunning))
    by apply sampleAfter_reachable.
  split; [exact Hreach|]. split; [vm_compute; reflexivity|].
  destruct (@armed_means_nothing_pending sampleTypes sampleEngine steadyHost
              (sampleAfter steadyHost sampleRunning) Hreach)
    as (Harmed & Hrunning & _).
  split; [exact Harmed|exact Hrunning].
Defined.

(** ** The further properties on the sample engine *)

(** [control_commands_keep_search]: [status] while program [7] runs. *)
Lemma control_commands_keep_search_witness :
  (@Status sampleTypes = Status \/ @Status sampleTypes = Start \/
   @Status sampleTypes = Stop) /\
  exists w',
    onmessage Status (sampleAfter steadyHost sampleRunning) = Some w' /\
    stats w' = stats (sampleAfter steadyHost sampleRunning) /\
    tree w' = tree (sampleAfter steadyHost sampleRunning) /\
    program w' = program (sampleAfter steadyHost sampleRunning).
Proof.
  assert (Hcmd : @Status sampleTypes = Status \/ @Status sampleTypes = Start \/
                 @Status sampleTypes = Stop) by (left; reflexivity).
  split; [exact Hcmd|].
  eassert (Hrun : onmessage Status (sampleAfter steadyHost sampleRunning)
                  = Some _) by (vm_compute; reflexivity).
  destruct (@control_commands_keep_search sampleTypes sampleEngine Status
              _ _ Hcmd Hrun) as (Hst & Htr & _ & Hp & _).
  eexists. split; [exact Hrun|]. split; [exact Hst|]. split; assumption.
Defined.

(** [idle_echo]: [status] once program [7] is loaded. *)
Lemma idle_echo_witness :
  (inferState (sampleAfter steadyHost sampleLoaded) = Paused /\
   (@Status sampleTypes = Status \/ @Status sampleTypes = Stop) \/
   inferState (sampleAfter steadyHost sampleLoaded) = Done /\
   (@Status sampleTypes = Status \/ @Status sampleTypes = Start \/
    @Status sampleTypes = Stop)) /\
  exists m,
    onmessage Status (sampleAfter steadyHost sampleLoaded) =
      Some (post m (sampleAfter steadyHost sampleLoaded)) /\
    m = MsgPaused zeroStats.
Proof.
  assert (Hidle :
            inferState (sampleAfter steadyHost sampleLoaded) = Paused /\
            (@Status sampleTypes = Status \/ @Status sampleTypes = Stop) \/
            inferState (sampleAfter steadyHost sampleLoaded) = Done /\
            (@Status sampleTypes = Status \/ @Status sampleTypes = Start \/
             @Status sampleTypes = Stop)).
  { left. split; [vm_compute; reflexivity|left; reflexivity]. }
  split; [exact Hidle|].
  destruct (@idle_echo sampleTypes sampleEngine Status
              (sampleAfter steadyHost sampleLoaded) Hidle)
    as (m & Hrun & Hm & _).
  exists m. split; [exact Hrun|]. rewrite Hm. vm_compute. reflexivity.
Defined.

(** [one_timer_at_most]: program [7] loaded and started. *)
Lemma one_timer_at_most_witness :
  reachable steadyHost (sampleAfter steadyHost sampleRunning) /\
  (length (timers (sampleAfter steadyHost sampleRunning)) <= 1)%nat /\
  (In 0 (timers (sampleAfter steadyHost sampleRunning)) <->
   liveLoopHandle (sampleAfter steadyHost sampleRunning) = Some 0).
Proof.
  assert (Hreach : reachable steadyHost (sampleAfter steadyHost sampleRunning))
    by apply sampleAfter_reachable.
  split; [exact Hreach|].
  destruct (@one_timer_at_most sampleTypes sampleEngine steadyHost
              (sampleAfter steadyHost sampleRunning) Hreach)
    as (Hlen & Hiff & _).
  split; [exact Hlen|apply Hiff].
Defined.

(** [disarming_commands_stop_the_loop]: [stop] while program [7] runs. *)
Lemma disarming_commands_stop_the_loop_witness :
  reachable steadyHost (sampleAfter steadyHost sampleRunning) /\
  (@Stop sampleTypes = Stop \/ @Stop sampleTypes = Reset \/
   (exists cp, @Stop sampleTypes = Load cp)) /\
  exists w',
    onmessage Stop (sampleAfter steadyHost sampleRunning) = Some w' /\
    timers w' = [] /\
    forall h w'', ~ step steadyHost w' (Timeout h) w''.
Proof.
  assert (Hreach : reachable steadyHost (sampleAfter steadyHost sampleRunning))
    by apply sampleAfter_reachable.
  assert (Hcmd : @Stop sampleTypes = Stop \/ @Stop sampleTypes = Reset \/
                 (exists cp, @Stop sampleTypes = Load cp))
    by (left; reflexivity).
  split; [exact Hreach|]. split; [exact Hcmd|].
  destruct (@disarming_commands_stop_the_loop sampleTypes sampleEngine
              steadyHost Stop (sampleAfter steadyHost sampleRunning)
              Hreach Hcmd)
    as (w' & Hrun & _ & Ht & _ & Hno).
  exists w'. split; [exact Hrun|]. split; [exact Ht|exact Hno].
Defined.

(** [start_then_stop]: once program [7] is loaded. *)
Lemma start_then_stop_witness :
  reachable steadyHost (sampleAfter steadyHost sampleLoaded) /\
  inferState (sampleAfter steadyHost sampleLoaded) = Paused /\
  exists w1 w2,
    onmessage Start (sampleAfter steadyHost sampleLoaded) = Some w1 /\
    onmessage Stop w1 = Some w2 /\
    inferState w2 = Paused /\
    stats w2 = stats (sampleAfter steadyHost sampleLoaded) /\
    tree w2 = tree (sampleAfter steadyHost sampleLoaded).
Proof.
  assert (Hreach : reachable steadyHost (sampleAfter steadyHost sampleLoaded))
    by apply sampleAfter_reachable.
  assert (Hstate : inferState (sampleAfter steadyHost sampleLoaded) = Paused)
    by (vm_compute; reflexivity).
  split; [exact Hreach|]. split; [exact Hstate|].
  destruct (@start_then_stop sampleTypes sampleEngine steadyHost
              (sampleAfter steadyHost sampleLoaded) Hreach Hstate)
    as (w1 & w2 & Hstart & _ & _ & Hstop & _ & _ & _ & Hpaused & Hst & Htr
        & _).
  exists w1, w2. auto 10.
Defined.

(** [delivery_then_start]: [start] after the first solution of program
    [3], whose tree goes on. *)
Lemma delivery_then_start_witness :
  inferState (sampleAfter steadyHost sampleMore) = Saturated /\
  (@Start sampleTypes = Status \/ @Start sampleTypes = Start \/
   @Start sampleTypes = Stop) /\
  exists w' w'',
    onmessage Start (sampleAfter steadyHost sampleMore) = Some w' /\
    liveLoopHandle w' = None /\
    inferState w' = Paused /\
    onmessage Start w' = Some w'' /\
    liveLoopHandle w'' = Some 1.
Proof.
  assert (Hstate : inferState (sampleAfter steadyHost sampleMore) = Saturated)
    by (vm_compute; reflexivity).
  assert (Hcmd : @Start sampleTypes = Status \/ @Start sampleTypes = Start \/
                 @Start sampleTypes = Stop) by (right; left; reflexivity).
  split; [exact Hstate|]. split; [exact Hcmd|].
  destruct (@delivery_then_start sampleTypes sampleEngine Start
              (sampleAfter steadyHost sampleMore) Hstate Hcmd)
    as (w' & w'' & Hfirst & Hh & _ & Hst & Hsecond & Hlast).
  assert (Htree : tree (sampleAfter steadyHost sampleMore) = Some 0)
    by (vm_compute; reflexivity).
  assert (Hnext : nextTimer (sampleAfter steadyHost sampleMore) = 1)
    by (vm_compute; reflexivity).
  rewrite Htree in Hst, Hlast. rewrite Hnext in Hlast.
  destruct Hlast as (_ & Harmed & _).
  exists w', w''. auto 10.
Defined.

(** [slice_step_bound]: the slice of program [7]. *)
Lemma slice_step_bound_witness :
  @counts_steps sampleTypes sampleEngine /\
  (random steadyHost
     (randomCalls (fire 0 (sampleAfter steadyHost sampleRunning))) < 1)%Q /\
  exists x u,
    cycle_run steadyHost 5 (fire 0 (sampleAfter steadyHost sampleRunning))
      = Some (x, u) /\
    (Z.of_nat (stepCalls u)
     <= Z.of_nat (stepCalls (fire 0 (sampleAfter steadyHost sampleRunning)))
        + 20000)%Z.
Proof.
  assert (Hcount : @counts_steps sampleTypes sampleEngine).
  { intros k p tr pth st. destruct tr as [|[|[|[|n]]]]; cbn; lia. }
  assert (Hrandom :
            (random steadyHost
               (randomCalls (fire 0 (sampleAfter steadyHost sampleRunning)))
             < 1)%Q) by reflexivity.
  eassert (Hrun : cycle_run steadyHost 5
                    (fire 0 (sampleAfter steadyHost sampleRunning))
                  = Some (_, _)) by (vm_compute; reflexivity).
  split; [exact Hcount|]. split; [exact Hrandom|].
  destruct (@slice_step_bound sampleTypes sampleEngine steadyHost Hcount
              _ _ _ _ Hrandom Hrun) as [_ Hbound].
  eexists. eexists. split; [exact Hrun|exact Hbound].
Defined.


(** [cycles_never_decrease]: the timer of program [7] fires. *)
Lemma cycles_never_decrease_witness :
  @counts_steps sampleTypes sampleEngine /\
  exists w',
    step steadyHost (sampleAfter steadyHost sampleRunning) (Timeout 0) w' /\
    ((cycles (stats (sampleAfter steadyHost sampleRunning))
      <= cycles (stats w'))%N \/
     (@Timeout sampleTypes 0 = Message Reset \/
      exists cp, @Timeout sampleTypes 0 = Message (Load cp)) /\
     stats w' = zeroStats).
Proof.
  assert (Hcount : @counts_steps sampleTypes sampleEngine).
  { intros k p tr pth st. destruct tr as [|[|[|[|n]]]]; cbn; lia. }
  eassert (Hstep : step steadyHost (sampleAfter steadyHost sampleRunning)
                     (Timeout 0) _).
  { eapply step_timeout with (fuel := 5);
      [vm_compute; left; reflexivity|vm_compute; reflexivity]. }
  split; [exact Hcount|].
  eexists. split; [exact Hstep|].
  exact (@cycles_never_decrease sampleTypes sampleEngine steadyHost Hcount
           _ _ _ Hstep).
Defined.

(** [slice_outcome_state]: the slice of program [7] ends with a solution. *)
Lemma slice_outcome_state_witness :
  reachable steadyHost (sampleAfter steadyHost sampleRunning) /\
  In 0 (timers (sampleAfter steadyHost sampleRunning)) /\
  exists u w',
    cycle_run steadyHost 5 (fire 0 (sampleAfter steadyHost sampleRunning))
      = Some (ExitSolution, u) /\
    liveLoop steadyHost 5 (fire 0 (sampleAfter steadyHost sampleRunning))
      = Some w' /\
    inferState w' = Saturated /\
    outbox w' = outbox (sampleAfter steadyHost sampleRunning).
Proof.
  assert (Hreach : reachable steadyHost (sampleAfter steadyHost sampleRunning))
    by apply sampleAfter_reachable.
  assert (Hin : In 0 (timers (sampleAfter steadyHost sampleRunning)))
    by (vm_compute; left; reflexivity).
  eassert (Hrun : cycle_run steadyHost 5
                    (fire 0 (sampleAfter steadyHost sampleRunning))
                  = Some (ExitSolution, _)) by (vm_compute; reflexivity).
  split; [exact Hreach|]. split; [exact Hin|].
  destruct (@slice_outcome_state sampleTypes sampleEngine steadyHost 5
              _ _ 0 ExitSolution Hreach Hin Hrun)
    as (w' & Hlive & _ & Hstate & _ & _ & Hout).
  eexists. exists w'. split; [exact Hrun|]. split; [exact Hlive|].
  split; [exact Hstate|exact Hout].
Defined.

(** [slice_result_is_reported]: [status] after the slice of program [7]. *)
Lemma slice_result_is_reported_witness :
  reachable steadyHost (sampleAfter steadyHost sampleRunning) /\
  In 0 (timers (sampleAfter steadyHost sampleRunning)) /\
  exists u w' w'',
    cycle_run steadyHost 5 (fire 0 (sampleAfter steadyHost sampleRunning))
      = Some (ExitSolution, u) /\
    liveLoop steadyHost 5 (fire 0 (sampleAfter steadyHost sampleRunning))
      = Some w' /\
    onmessage Status w' = Some w'' /\
    lastPosted w'' =
      Some (MsgSaturated {| cycles := 3; deadEnds := 0 |}
              ["edge"%string; "edge"%string; "colour"%string] true).
Proof.
  assert (Hreach : reachable steadyHost (sampleAfter steadyHost sampleRunning))
    by apply sampleAfter_reachable.
  assert (Hin : In 0 (timers (sampleAfter steadyHost sampleRunning)))
    by (vm_compute; left; reflexivity).
  eassert (Hrun : cycle_run steadyHost 5
                    (fire 0 (sampleAfter steadyHost sampleRunning))
                  = Some (ExitSolution, _)) by (vm_compute; reflexivity).
  split; [exact Hreach|]. split; [exact Hin|].
  destruct (@slice_result_is_reported sampleTypes sampleEngine steadyHost 5
              _ _ 0 ExitSolution Hreach Hin Hrun)
    as (w' & w'' & Hlive & Hstatus & Hout & _).
  eexists. exists w', w''. split; [exact Hrun|]. split; [exact Hlive|].
  split; [exact Hstatus|].
  erewrite lastPosted_last; [|exact Hout]. vm_compute. reflexivity.
Defined.


(** [replies_match_commands]: program [1] loaded, started and run. *)
Lemma replies_match_commands_witness :
  runEvents steadyHost 5 sampleSaturated init
    = Some (sampleAfter steadyHost sampleSaturated) /\
  length (outbox (sampleAfter steadyHost sampleSaturated)) =
    (length (outbox (@init sampleTypes)) + countMessages sampleSaturated)%nat /\
  countMessages sampleSaturated = 2.
Proof.
  assert (Hrun : runEvents steadyHost 5 sampleSaturated init
                 = Some (sampleAfter steadyHost sampleSaturated))
    by (vm_compute; reflexivity).
  split; [exact Hrun|].
  split; [|reflexivity].
  exact (@replies_match_commands sampleTypes sampleEngine steadyHost 5
           sampleSaturated init _ Hrun).
Defined.

(** [hello_once]: after program [2] has failed. *)
Lemma hello_once_witness :
  reachable steadyHost (sampleAfter steadyHost sampleFailed) /\
  exists rest,
    outbox (sampleAfter steadyHost sampleFailed) = MsgHello zeroStats :: rest /\
    forallb (fun m => negb (isHello m)) rest = true.
Proof.
  assert (Hreach : reachable steadyHost (sampleAfter steadyHost sampleFailed))
    by apply sampleAfter_reachable.
  split; [exact Hreach|].
  exact (@hello_once sampleTypes sampleEngine steadyHost
           (sampleAfter steadyHost sampleFailed) Hreach).
Defined.


End SampleRuns.
